(** * Ship proxy / offshore proxy: framing, upstream pump and remote executor

    A shallow embedding of [ship_proxy.py] and [offshore_proxy.py].

    Conventions of the embedding.
    - Python [bytes] is [list byte].  Python [str] is modelled by its UTF-8
      encoding, again a [list byte]: [s.encode('utf-8')] is the identity and
      [b.decode('utf-8')] is a validity check.  All delimiters the programs
      split on are ASCII, so splitting the encoding is splitting the text.
    - A raised Python exception is a value [Raise cls msg]; [msg] is what
      [str(e)] returns.
    - A socket is an explicit state: the bytes written so far, a script of
      what the peer and the network will deliver, and a log of the calls
      made on it.
    - Functions of the Python library that are not code of this repository
      ([urlparse], [str.strip], [int]) are Section variables. *)

From Stdlib Require Import ZArith NArith Lia Bool.
From Stdlib Require Import Strings.Byte Strings.String Strings.Ascii DecimalString.
From stdpp Require Import base list option.

Local Open Scope N_scope.

(** ** Bytes *)

Abbreviation bytes := (list byte).
Abbreviation str := (list byte).

#[global] Instance byte_eq_dec : EqDecision byte.
Proof.
  intros x y. destruct (Byte.eqb x y) eqn:E.
  - left. apply Byte.byte_dec_bl, E.
  - right. intros H. apply Byte.byte_dec_lb in H. congruence.
Defined.

Definition b (s : string) : bytes := list_byte_of_string s.

Definition CR : byte := x0d.
Definition LF : byte := x0a.
Definition CRLF : bytes := [CR; LF].
Definition SP : byte := x20.

Definition len (d : bytes) : N := N.of_nat (length d).

Definition byte_of_N (n : N) : byte :=
  match Byte.of_N (n mod 256) with
  | Some c => c
  | None => x00
  end.

(** Python truthiness of a bytes / str value: [not x] holds for the empty one. *)
Definition is_empty (d : bytes) : bool :=
  match d with [] => true | _ => false end.

(** ** Exceptions *)

Inductive exn_class :=
  | ExceptionCls        (* plain [Exception(...)] raised by the program *)
  | OSErrorCls          (* socket errors: reset, broken pipe, gaierror ... *)
  | SocketTimeoutCls    (* [socket.timeout] *)
  | StructErrorCls      (* [struct.error] *)
  | ValueErrorCls       (* [ValueError], also [UnicodeDecodeError] *)
  | IndexErrorCls
  | OverflowErrorCls
  | MemoryErrorCls.     (* [MemoryError]: its message is the empty string *)

Inductive result (A : Type) :=
  | Ok (a : A)
  | Raise (cls : exn_class) (msg : str).
Arguments Ok {A} a.
Arguments Raise {A} cls msg.

(** ** [struct.pack('>I', n)] and [struct.unpack('>I', d)[0]] *)

Definition UINT32_LIMIT : N := 2 ^ 32.

Definition struct_error_msg : str :=
  b "'I' format requires 0 <= number <= 4294967295".

Definition pack_be32 (n : N) : result bytes :=
  if n <? UINT32_LIMIT then
    Ok [byte_of_N (n / 2 ^ 24); byte_of_N (n / 2 ^ 16);
        byte_of_N (n / 2 ^ 8); byte_of_N n]
  else Raise StructErrorCls struct_error_msg.

(** [unpack_be32] is only applied to [header[:4]] of a 5-byte header. *)
Definition unpack_be32 (d : bytes) : N :=
  match d with
  | [b3; b2; b1; b0] =>
      Byte.to_N b3 * 2 ^ 24 + Byte.to_N b2 * 2 ^ 16
      + Byte.to_N b1 * 2 ^ 8 + Byte.to_N b0
  | _ => 0
  end.

(** [bytes([msg_type])] *)
Definition bytes_of_int (t : N) : result bytes :=
  if t <? 256 then Ok [byte_of_N t]
  else Raise ValueErrorCls (b "bytes must be in range(0, 256)").

(** ** Sockets *)

Inductive recv_event :=
  | Chunk (data : bytes)                 (* bytes that arrive together *)
  | RecvRaise (cls : exn_class) (msg : str).

Inductive send_event :=
  | SendOk
  | SendRaise (written : nat) (cls : exn_class) (msg : str).

Inductive sock_call :=
  | CallSend (data : bytes)    (* the bytes that reached the wire *)
  | CallRecv (data : bytes).   (* the bytes a [recv] returned *)

Record socket := Socket {
  sent : bytes;                    (* everything written so far, in order *)
  send_script : list send_event;   (* outcome of the next [sendall] calls *)
  inbox : list recv_event;         (* what the next [recv] calls will see *)
  calls : list sock_call;          (* log of the calls, oldest first *)
  closed : bool
}.

Definition IO (A : Type) : Type := socket -> result A * socket.

Definition ret {A} (a : A) : IO A := fun s => (Ok a, s).
Definition raise {A} (cls : exn_class) (msg : str) : IO A :=
  fun s => (Raise cls msg, s).
Definition bind {A B} (m : IO A) (k : A -> IO B) : IO B :=
  fun s => match m s with
           | (Ok a, s') => k a s'
           | (Raise cls msg, s') => (Raise cls msg, s')
           end.
Definition lift {A} (r : result A) : IO A := fun s => (r, s).

Notation "x <- m ;; k" := (bind m (fun x => k))
  (at level 100, m at next level, right associativity).

(** [sock.sendall(data)]: the next entry of the script decides; an exhausted
    script means the write succeeds. *)
Definition sendall (data : bytes) : IO unit := fun s =>
  match send_script s with
  | [] =>
      (Ok tt, Socket (sent s ++ data) [] (inbox s)
                     (calls s ++ [CallSend data]) (closed s))
  | SendOk :: rest =>
      (Ok tt, Socket (sent s ++ data) rest (inbox s)
                     (calls s ++ [CallSend data]) (closed s))
  | SendRaise k cls msg :: rest =>
      (Raise cls msg, Socket (sent s ++ take k data) rest (inbox s)
                             (calls s ++ [CallSend (take k data)]) (closed s))
  end.

(** [sock.recv(n)]: at most [n] bytes of the chunk at the head of the inbox;
    [b''] once the peer has closed (inbox exhausted, or an empty chunk). *)
Definition recv (n : nat) : IO bytes := fun s =>
  match inbox s with
  | [] => (Ok [], Socket (sent s) (send_script s) []
                         (calls s ++ [CallRecv []]) (closed s))
  | Chunk d :: rest =>
      let rest' := if is_empty (drop n d) then rest
                   else Chunk (drop n d) :: rest in
      (Ok (take n d), Socket (sent s) (send_script s) rest'
                             (calls s ++ [CallRecv (take n d)]) (closed s))
  | RecvRaise cls msg :: rest =>
      (Raise cls msg, Socket (sent s) (send_script s) rest (calls s) (closed s))
  end.

Definition close : IO unit := fun s =>
  (Ok tt, Socket (sent s) (send_script s) (inbox s) (calls s) true).

(** ** Shared framing code

    [send_message] and [_recv_all] are the same text in both programs. *)

(** The argument of [sendall] in [send_message]: [header + payload]. *)
Definition frame (msg_type : N) (payload : bytes) : result bytes :=
  match pack_be32 (len payload) with
  | Raise cls msg => Raise cls msg
  | Ok l =>
      match bytes_of_int msg_type with
      | Raise cls msg => Raise cls msg
      | Ok t => Ok ((l ++ t) ++ payload)
      end
  end.

Definition send_message (msg_type : N) (payload : bytes) : IO unit :=
  data <- lift (frame msg_type payload) ;;
  sendall data.

(** The [while len(data) < length] loop of [_recv_all].  Every iteration that
    does not return makes [data] longer, so [length - len(data)] iterations
    are enough; [recv_all_fuel] shows the fuel is never exhausted. *)
Fixpoint recv_all_loop (fuel : nat) (length0 : nat) (data : bytes)
  : IO (option bytes) :=
  if (length data <? length0)%nat then
    match fuel with
    | O => ret None
    | S fuel' =>
        chunk <- recv (length0 - length data) ;;
        if is_empty chunk then ret None
        else recv_all_loop fuel' length0 (data ++ chunk)
    end
  else ret (Some data).

Definition _recv_all (length0 : N) : IO (option bytes) :=
  recv_all_loop (N.to_nat length0) (N.to_nat length0) [].

(** ** Small pieces of Python's [str] *)

(** [str(n)] for a non-negative integer, as f-strings format it. *)
Definition str_of_N (n : N) : str :=
  b (DecimalString.NilZero.string_of_uint (N.to_uint n)).

(** ASCII lower-casing.  It is applied to header names (printable ASCII in a
    parsed message) and to a line that is then only tested for the ASCII
    prefix [host:]; no non-ASCII character lower-cases into that prefix. *)
Definition lower_byte (c : byte) : byte :=
  let n := Byte.to_N c in
  if (65 <=? n) && (n <=? 90) then byte_of_N (n + 32) else c.

Definition lower (s : str) : str := map lower_byte s.

Fixpoint startswith (p s : str) : bool :=
  match p, s with
  | [], _ => true
  | c :: p', d :: s' => if bool_decide (c = d) then startswith p' s' else false
  | _ :: _, [] => false
  end.

(** [s.split(sep, maxsplit)] for a non-empty [sep]; [maxsplit = None] is the
    call without the second argument.  [skip] counts the bytes of a matched
    separator that are still to be dropped, [cur] is the piece being built. *)
Fixpoint split_go (sep : str) (maxsplit : option nat) (skip : nat)
                  (cur : str) (s : str) : list str :=
  match s with
  | [] => [cur]
  | c :: s' =>
      match skip with
      | S k => split_go sep maxsplit k cur s'
      | O =>
          match maxsplit with
          | Some O => split_go sep maxsplit O (cur ++ [c]) s'
          | _ =>
              if startswith sep s then
                cur :: split_go sep (pred <$> maxsplit) (length sep - 1) [] s'
              else split_go sep maxsplit O (cur ++ [c]) s'
          end
      end
  end.

Definition split (sep : str) (maxsplit : option nat) (s : str) : list str :=
  split_go sep maxsplit O [] s.

(** [data.decode('utf-8')] succeeds exactly on well-formed UTF-8 (no overlong
    forms, no surrogates, nothing above U+10FFFF).  [need] continuation bytes
    are still expected, the next of them in [lo..hi]. *)
Fixpoint utf8_go (need : nat) (lo hi : N) (s : bytes) : bool :=
  match s with
  | [] => match need with O => true | S _ => false end
  | c :: s' =>
      let n := Byte.to_N c in
      match need with
      | S k => if (lo <=? n) && (n <=? hi) then utf8_go k 128 191 s' else false
      | O =>
          if n <? 128 then utf8_go 0 128 191 s'
          else if (194 <=? n) && (n <=? 223) then utf8_go 1 128 191 s'
          else if n =? 224 then utf8_go 2 160 191 s'
          else if n =? 237 then utf8_go 2 128 159 s'
          else if (225 <=? n) && (n <=? 239) then utf8_go 2 128 191 s'
          else if n =? 240 then utf8_go 3 144 191 s'
          else if (241 <=? n) && (n <=? 243) then utf8_go 3 128 191 s'
          else if n =? 244 then utf8_go 3 128 143 s'
          else false
      end
  end.

(** [str(e)] of the [UnicodeDecodeError]: the first ill-formed sequence
    starts at [start]; [cnt] bytes of it have been accepted when the scan
    stops.  The decoder reports an invalid start byte, an invalid
    continuation byte (the error covers the [cnt] accepted bytes) or the end
    of the data inside a sequence (the error covers the rest of the data). *)
Definition hex_digit (n : N) : byte :=
  nth (N.to_nat n) (b "0123456789abcdef") x30.

Definition hex2 (c : byte) : str :=
  [hex_digit (Byte.to_N c / 16); hex_digit (Byte.to_N c mod 16)].

Definition decode_error (first : byte) (start stop : N) (reason : str) : str :=
  if stop =? start + 1 then
    b "'utf-8' codec can't decode byte 0x" ++ hex2 first
      ++ b " in position " ++ str_of_N start ++ b ": " ++ reason
  else
    b "'utf-8' codec can't decode bytes in position " ++ str_of_N start
      ++ b "-" ++ str_of_N (stop - 1) ++ b ": " ++ reason.

Fixpoint utf8_error (pos start : N) (first : byte) (need : nat) (cnt : N)
                    (lo hi : N) (s : bytes) : option str :=
  match s with
  | [] =>
      match need with
      | O => None
      | S _ => Some (decode_error first start pos (b "unexpected end of data"))
      end
  | c :: s' =>
      let n := Byte.to_N c in
      match need with
      | S k =>
          if (lo <=? n) && (n <=? hi) then
            utf8_error (pos + 1) start first k (cnt + 1) 128 191 s'
          else Some (decode_error first start (start + cnt)
                                  (b "invalid continuation byte"))
      | O =>
          if n <? 128 then utf8_error (pos + 1) pos c 0 0 128 191 s'
          else if (194 <=? n) && (n <=? 223) then
            utf8_error (pos + 1) pos c 1 1 128 191 s'
          else if n =? 224 then utf8_error (pos + 1) pos c 2 1 160 191 s'
          else if n =? 237 then utf8_error (pos + 1) pos c 2 1 128 159 s'
          else if (225 <=? n) && (n <=? 239) then
            utf8_error (pos + 1) pos c 2 1 128 191 s'
          else if n =? 240 then utf8_error (pos + 1) pos c 3 1 144 191 s'
          else if (241 <=? n) && (n <=? 243) then
            utf8_error (pos + 1) pos c 3 1 128 191 s'
          else if n =? 244 then utf8_error (pos + 1) pos c 3 1 128 143 s'
          else Some (decode_error c pos (pos + 1) (b "invalid start byte"))
      end
  end.

Definition decode_error_message (data : bytes) : str :=
  default [] (utf8_error 0 0 x00 0 0 128 191 data).

Definition decode_utf8 (data : bytes) : result str :=
  if utf8_go 0 128 191 data then Ok data
  else Raise ValueErrorCls (decode_error_message data).

(** ** Insertion-ordered dictionaries with [str] keys and values *)

Abbreviation dict := (list (str * str)).

(** [d[k] = v]: an existing key keeps its position. *)
Fixpoint dict_set (k v : str) (d : dict) : dict :=
  match d with
  | [] => [(k, v)]
  | (k', v') :: d' =>
      if bool_decide (k = k') then (k', v) :: d'
      else (k', v') :: dict_set k v d'
  end.

Fixpoint dict_get (k : str) (d : dict) : option str :=
  match d with
  | [] => None
  | (k', v') :: d' => if bool_decide (k = k') then Some v' else dict_get k d'
  end.

(** [k in d] *)
Definition dict_contains (k : str) (d : dict) : bool :=
  match dict_get k d with Some _ => true | None => false end.

(** The parsed header block of the client's request ([self.headers], an
    [http.client.HTTPMessage]): the header fields in the order received,
    repeated names included. *)
Abbreviation message := (list (str * str)).

(** [msg.keys()] *)
Definition message_keys (m : message) : list str := map fst m.

(** [msg[name]]: the value of the first field whose name matches without
    regard to case. *)
Fixpoint message_getitem (name : str) (m : message) : option str :=
  match m with
  | [] => None
  | (k, v) :: m' =>
      if bool_decide (lower k = lower name) then Some v
      else message_getitem name m'
  end.

(** [dict(msg)]: for every [k] of [msg.keys()], in order, [d[k] = msg[k]]. *)
Definition dict_of_message (m : message) : dict :=
  foldl (fun d k => match message_getitem k m with
                    | Some v => dict_set k v d
                    | None => d
                    end) [] (message_keys m).

(** * ship_proxy.py *)

Module Ship.

(** [RequestItem].  The [handler] back-reference is never read and is left
    out.  [response_event] is the flag of the [threading.Event]. *)
Record RequestItem := mkRequestItem {
  method : str;
  url : str;
  headers : dict;
  body : str;
  response_event : bool;
  response : option bytes;
  error : option str
}.

Definition set_response (r : bytes) (it : RequestItem) : RequestItem :=
  mkRequestItem (method it) (url it) (headers it) (body it)
                (response_event it) (Some r) (error it).

Definition set_error (e : str) (it : RequestItem) : RequestItem :=
  mkRequestItem (method it) (url it) (headers it) (body it)
                (response_event it) (response it) (Some e).

Definition set_event (it : RequestItem) : RequestItem :=
  mkRequestItem (method it) (url it) (headers it) (body it)
                true (response it) (error it).

(** [ShipProxy].  A [RequestItem] is an object shared between the handler
    that created it and the queue: [heap] holds the objects, the queue and
    the handlers hold indices into it.  [request_queue] is the content of the
    [queue.Queue], oldest first; [put] and [get] are atomic. *)
Record ShipProxy := mkShipProxy {
  request_queue : list nat;
  heap : list RequestItem;
  tcp_sock : socket;
  connected : bool;
  running : bool
}.

(** [build_request_string] *)
Definition build_request_string (it : RequestItem) : str :=
  let request_str := method it ++ [SP] ++ url it ++ b " HTTP/1.1" ++ CRLF in
  let request_str :=
    foldl (fun acc hv => acc ++ (fst hv ++ b ": " ++ snd hv ++ CRLF))
          request_str (headers it) in
  let request_str := request_str ++ CRLF in
  if is_empty (body it) then request_str else request_str ++ body it.

(** [not x] for a value that is [None] or a bytes object. *)
Definition falsy (o : option bytes) : bool :=
  match o with None => true | Some d => is_empty d end.

(** [read_response] *)
Definition read_response : IO bytes :=
  header <- _recv_all 5 ;;
  if falsy header then
    raise ExceptionCls (b "Failed to read response header")
  else
    let header' := default [] header in
    let length0 := unpack_be32 (take 4 header') in
    match header' !! 4%nat with
    | None => raise IndexErrorCls (b "index out of range")
    | Some t =>
        let msg_type := Byte.to_N t in
        if negb (msg_type =? 1) then
          raise ExceptionCls (b "Unexpected message type: " ++ str_of_N msg_type)
        else
          response_data <- _recv_all length0 ;;
          if falsy response_data then
            raise ExceptionCls (b "Failed to read response data")
          else ret (default [] response_data)
    end.

(** [queue_request]: a new [RequestItem] object, put at the tail of the
    queue; the caller keeps the reference (the index). *)
Definition queue_request (method0 url0 : str) (headers0 : dict) (body0 : str)
                         (s : ShipProxy) : nat * ShipProxy :=
  let request_item := mkRequestItem method0 url0 headers0 body0 false None None in
  let i := length (heap s) in
  (i, mkShipProxy (request_queue s ++ [i]) (heap s ++ [request_item])
                  (tcp_sock s) (connected s) (running s)).

(** The exchange inside the inner [try] of [process_requests]. *)
Definition exchange (request_str : str) : IO bytes :=
  _ <- send_message 0 request_str ;;
  read_response.

(** One iteration of the [while self.running] loop of [process_requests].
    [get(timeout=1)] on an empty queue raises [queue.Empty], which is caught
    and the loop continues.  The iteration reads and writes only the socket
    and the item it dequeued, so it is atomic with respect to concurrent
    [queue_request] calls, which only append to the queue. *)
Definition process_requests_body (s : ShipProxy) : ShipProxy :=
  match request_queue s with
  | [] => s
  | i :: q =>
      match heap s !! i with
      | None => mkShipProxy q (heap s) (tcp_sock s) (connected s) (running s)
      | Some request_item =>
          if negb (connected s) then
            let it := set_error (b "No connection to offshore proxy") request_item in
            mkShipProxy q (<[i := set_event it]> (heap s))
                        (tcp_sock s) (connected s) (running s)
          else
            let request_str := build_request_string request_item in
            let '(r, sock') := exchange request_str (tcp_sock s) in
            let it := match r with
                      | Ok response0 => set_response response0 request_item
                      | Raise _ msg => set_error msg request_item
                      end in
            mkShipProxy q (<[i := set_event it]> (heap s))
                        sock' (connected s) (running s)
      end
  end.

(** [process_requests], for [n] turns of its loop. *)
Fixpoint process_requests (n : nat) (s : ShipProxy) : ShipProxy :=
  match n with
  | O => s
  | S n' => if running s then process_requests n' (process_requests_body s)
            else s
  end.

(** *** The request handler *)

(** What the handler sees of its client: the request target, the parsed
    header block, and the bytes that follow the header block on the
    connection. *)
Record client := mkClient {
  path : str;
  client_headers : message;
  rfile : bytes
}.

(** What the handler does to its client. *)
Inductive client_output :=
  | SendError (code : N) (msg : str)     (* [self.send_error(code, msg)] *)
  | WfileWrite (data : bytes).           (* [self.wfile.write(data)] *)

Section Handler.

(** Python's [int(s)]: the integer, or the [ValueError]. *)
Variable py_int : str -> result Z.

(** [self.rfile.read(n)] on the buffered reader of the connection:
    everything up to the end of the data for [n = -1], up to [n] bytes for
    [n >= 0].  A length that does not fit a signed 64-bit index is an
    [OverflowError], another length below -1 a [ValueError], and a length
    that leaves no room for the header of the bytes object (33 bytes) an
    [OverflowError] again.  The buffer of [n] bytes that the read allocates
    is taken to be available: no [MemoryError] is modelled. *)
Definition rfile_read (n : Z) (c : client) : result bytes :=
  if ((n <? - 2 ^ 63) || (2 ^ 63 <=? n))%Z then
    Raise OverflowErrorCls (b "cannot fit 'int' into an index-sized integer")
  else if (n <? -1)%Z then
    Raise ValueErrorCls (b "read length must be non-negative or -1")
  else if (n =? -1)%Z then Ok (rfile c)
  else if (2 ^ 63 - 33 <=? n)%Z then
    Raise OverflowErrorCls (b "byte string is too large")
  else Ok (take (Z.to_nat n) (rfile c)).

(** [handle_request] up to and including [queue_request]: the reference to
    the queued item, or the exception that the outer [except] turns into a
    500 response. *)
Definition handle_request_enqueue (method0 : str) (c : client) (s : ShipProxy)
  : result nat * ShipProxy :=
  let url0 := path c in
  let headers0 := dict_of_message (client_headers c) in
  let body0 :=
    match dict_get (b "Content-Length") headers0 with
    | Some v =>
        match py_int v with
        | Ok content_length =>
            match rfile_read content_length c with
            | Ok data => decode_utf8 data
            | Raise cls msg => Raise cls msg
            end
        | Raise cls msg => Raise cls msg
        end
    | None => Ok []
    end in
  match body0 with
  | Ok body1 =>
      let '(i, s') := queue_request method0 url0 headers0 body1 s in
      (Ok i, s')
  | Raise cls msg => (Raise cls msg, s)
  end.

End Handler.

(** Truthiness of [request_item.error], a [str] or [None]. *)
Definition truthy (o : option bytes) : bool := negb (falsy o).

(** [handle_request] after [response_event.wait(timeout=60)] has returned,
    on the item as the handler then finds it.  The value returned by [wait]
    is not looked at. *)
Definition handle_request_reply (request_item : RequestItem) : client_output :=
  if truthy (error request_item) then
    SendError 502 (b "Proxy Error: " ++ default [] (error request_item))
  else if falsy (response request_item) then
    SendError 504 (b "Gateway Timeout")
  else
    WfileWrite (default [] (response request_item)).

(** The [except Exception] clause of [handle_request]. *)
Definition handle_request_failed (msg : str) : client_output :=
  SendError 500 (b "Internal Server Error: " ++ msg).

(** A ship proxy right after a successful [start]: [connect_to_offshore] has
    set [connected], the queue is empty. *)
Definition started (sock : socket) : ShipProxy :=
  mkShipProxy [] [] sock true true.

End Ship.

(** * offshore_proxy.py *)

Module Offshore.

(** What the program reads off [urlparse(url)]. *)
Record parsed_url := mkParsedUrl {
  scheme : str;
  hostname : option str;
  port : option Z
}.

(** A destination server as the executor meets it: the exception raised by
    [connect] (name resolution included) if any, and the socket it gets
    otherwise.  A read timeout is the event
    [RecvRaise SocketTimeoutCls] in that socket's inbox. *)
Record destination := mkDestination {
  connect_raises : option (exn_class * str);
  target_sock : socket
}.

Abbreviation network := (str -> Z -> destination).

(** The calls made on destination sockets, oldest first. *)
Inductive dest_call :=
  | DConnect (host : str) (port0 : Z)
  | DSendAll (data : bytes)
  | DClose.

(** [create_error_response] *)
Definition error_body (status_code : N) (status_text : str) : str :=
  b "<html><body><h1>" ++ str_of_N status_code ++ [SP] ++ status_text
    ++ b "</h1></body></html>".

Definition create_error_response (status_code : N) (status_text : str) : bytes :=
  b "HTTP/1.1 " ++ str_of_N status_code ++ [SP] ++ status_text ++ CRLF
    ++ b "Content-Type: text/html" ++ CRLF
    ++ b "Content-Length: 54" ++ CRLF
    ++ CRLF
    ++ error_body status_code status_text.

(** [handle_connect_request]: nothing in its [try] can raise. *)
Definition handle_connect_request (target : str) : bytes :=
  b "HTTP/1.1 200 Connection Established" ++ CRLF ++ CRLF.

(** The [while True] loop that collects the destination's response.  A
    timeout ends the loop like an empty chunk does; any other exception
    leaves it.  Each turn that goes on has consumed part of the inbox, so
    [recv_budget] turns are enough. *)
Fixpoint recv_response (fuel : nat) (response0 : bytes) : IO bytes :=
  match fuel with
  | O => ret response0
  | S fuel' => fun s =>
      match recv 4096 s with
      | (Ok chunk, s') =>
          if is_empty chunk then (Ok response0, s')
          else recv_response fuel' (response0 ++ chunk) s'
      | (Raise SocketTimeoutCls _, s') => (Ok response0, s')
      | (Raise cls msg, s') => (Raise cls msg, s')
      end
  end.

Definition event_size (e : recv_event) : nat :=
  match e with
  | Chunk d => S (length d)
  | RecvRaise _ _ => 1
  end.

Definition inbox_size (s : socket) : nat :=
  foldr (fun e n => (event_size e + n)%nat) O (inbox s).

Definition recv_budget (s : socket) : nat := S (inbox_size s).

Section Executor.

(** [urlparse(url)] together with the [.hostname] and [.port] reads that
    follow it; the [ValueError] of either is the [Raise]. *)
Variable urlparse : str -> result parsed_url.

(** [str.strip()] *)
Variable strip : str -> str.

Variable net : network.

(** The [for line in lines[1:]] search for a [Host] header. *)
Fixpoint find_host (lines : list str) : option str :=
  match lines with
  | [] => None
  | line :: rest =>
      if startswith (b "host:") (lower line) then
        Some (strip (default [] (split (b ":") (Some 1%nat) line !! 1%nat)))
      else find_host rest
  end.

Definition bad_gateway : bytes := create_error_response 502 (b "Bad Gateway").

(** Lines 109-119 of [handle_http_request]: the host, if any, and the port
    to connect to; the [Raise] is a [ValueError] of [urlparse]. *)
Definition resolve_target (request_str url : str) : result (option str * Z) :=
  match urlparse url with
  | Raise cls msg => Raise cls msg
  | Ok parsed_url0 =>
      let host := hostname parsed_url0 in
      let default_port :=
        if bool_decide (scheme parsed_url0 = b "https") then 443%Z else 80%Z in
      let port0 :=
        match port parsed_url0 with
        | Some p => if (p =? 0)%Z then default_port else p
        | None => default_port
        end in
      let host :=
        if Ship.falsy host then find_host (tail (split CRLF None request_str))
        else host in
      Ok (host, port0)
  end.

(** Lines 124-145: connect, send the request text, collect the response,
    close.  Any exception but the read timeout ends in the [except] clause
    of [handle_http_request], which returns the 502 response. *)
Definition contact (request_str host : str) (port0 : Z)
  : bytes * list dest_call :=
  let d := net host port0 in
  match connect_raises d with
  | Some _ => (bad_gateway, [DConnect host port0])
  | None =>
      match sendall request_str (target_sock d) with
      | (Raise _ _, _) =>
          (bad_gateway, [DConnect host port0; DSendAll request_str])
      | (Ok _, s1) =>
          match recv_response (recv_budget s1) [] s1 with
          | (Raise _ _, _) =>
              (bad_gateway, [DConnect host port0; DSendAll request_str])
          | (Ok response0, _) =>
              (response0, [DConnect host port0; DSendAll request_str; DClose])
          end
      end
  end.

(** [handle_http_request]: the bytes it returns and the calls it made on
    destination sockets. *)
Definition handle_http_request (request_str url : str)
  : bytes * list dest_call :=
  match resolve_target request_str url with
  | Raise _ _ => (bad_gateway, [])
  | Ok (host, port0) =>
      if Ship.falsy host then
        (create_error_response 400 (b "Bad Request - No host specified"), [])
      else contact request_str (default [] host) port0
  end.

Definition internal_error : bytes :=
  create_error_response 500 (b "Internal Server Error").

(** [process_request] *)
Definition process_request (request_data : bytes) : bytes * list dest_call :=
  match decode_utf8 request_data with
  | Raise _ _ => (internal_error, [])
  | Ok request_str =>
      match split CRLF None request_str with
      | [] => (internal_error, [])
      | request_line :: _ =>
          match split [SP] (Some 2%nat) request_line with
          | [method; url; version] =>
              if bool_decide (method = b "CONNECT") then
                (handle_connect_request url, [])
              else handle_http_request request_str url
          | _ => (internal_error, [])
          end
      end
  end.

(** State of [handle_ship_connection]: the accepted connection and the log
    of the destination calls made so far. *)
Record serving := mkServing {
  conn : socket;
  dest_calls : list dest_call
}.

Inductive loop_exit := Continue | Break | Raised.

(** Lines 58-72: read one framed request off [conn].  The result says how
    this turn of the loop ends when no request is handed on. *)
Definition read_request : IO (loop_exit + bytes) :=
  header <- _recv_all 5 ;;
  if Ship.falsy header then ret (inl Break)
  else
    let header' := default [] header in
    let length0 := unpack_be32 (take 4 header') in
    match header' !! 4%nat with
    | None => raise IndexErrorCls (b "index out of range")
    | Some t =>
        let msg_type := Byte.to_N t in
        if negb (msg_type =? 0) then ret (inl Continue)
        else
          request_data <- _recv_all length0 ;;
          if Ship.falsy request_data then ret (inl Break)
          else ret (inr (default [] request_data))
    end.

(** One turn of the [while self.running] loop of [handle_ship_connection];
    [running] stays set while a connection is served. *)
Definition serve_one (st : serving) : loop_exit * serving :=
  match read_request (conn st) with
  | (Raise _ _, c) => (Raised, mkServing c (dest_calls st))
  | (Ok (inl e), c) => (e, mkServing c (dest_calls st))
  | (Ok (inr request_data), c) =>
      let '(response0, log) := process_request request_data in
      match send_message 1 response0 c with
      | (Raise _ _, c') => (Raised, mkServing c' (dest_calls st ++ log))
      | (Ok _, c') => (Continue, mkServing c' (dest_calls st ++ log))
      end
  end.

(** The loop, then the [finally: conn.close()]. *)
Fixpoint serve_loop (fuel : nat) (st : serving) : option serving :=
  match fuel with
  | O => None
  | S fuel' =>
      match serve_one st with
      | (Continue, st') => serve_loop fuel' st'
      | (_, st') => Some (mkServing (snd (close (conn st'))) (dest_calls st'))
      end
  end.

Definition handle_ship_connection (c : socket) : option serving :=
  serve_loop (recv_budget c) (mkServing c []).

End Executor.

End Offshore.

(** * Vocabulary of the statements *)

(** The five header bytes and the whole of a framed message whose payload
    length fits 32 bits and whose type fits a byte: what [frame] returns then
    ([frame_wire]). *)
Definition header_of (msg_type : N) (payload : bytes) : bytes :=
  [byte_of_N (len payload / 2 ^ 24); byte_of_N (len payload / 2 ^ 16);
   byte_of_N (len payload / 2 ^ 8); byte_of_N (len payload);
   byte_of_N msg_type].

Definition wire (msg_type : N) (payload : bytes) : bytes :=
  header_of msg_type payload ++ payload.

Definition all_nonempty (cs : list bytes) : bool :=
  forallb (fun c => negb (is_empty c)) cs.

(** The socket will deliver exactly the bytes [stream], cut into non-empty
    chunks in any way, and after them whatever [rest] says. *)
Definition carries (stream : bytes) (rest : list recv_event) (s : socket) : Prop :=
  exists cs, inbox s = map Chunk cs ++ rest
             /\ all_nonempty cs = true /\ concat cs = stream.

(** [s'] is [s] after [recv] calls that returned, together, the bytes [a]. *)
Definition after_reading (a : bytes) (s s' : socket) : Prop :=
  sent s' = sent s /\ send_script s' = send_script s /\ closed s' = closed s
  /\ exists pieces, calls s' = calls s ++ map CallRecv pieces
                    /\ concat pieces = a.

Definition is_send_ok (e : send_event) : bool :=
  match e with SendOk => true | SendRaise _ _ _ => false end.

(** No [sendall] on the socket will fail. *)
Definition sends_succeed (s : socket) : bool := forallb is_send_ok (send_script s).

(** Reading the call log of a socket as a sequence of exchanges: every
    [sendall] opens an exchange, the bytes of the [recv] calls that follow
    are its answer.  The accumulator holds the newest exchange first. *)
Definition log_step (acc : list (bytes * bytes)) (c : sock_call)
  : list (bytes * bytes) :=
  match c with
  | CallSend d => (d, []) :: acc
  | CallRecv d =>
      match acc with
      | (q, r) :: acc' => (q, r ++ d) :: acc'
      | [] => []
      end
  end.

Definition exchanges (log : list sock_call) : list (bytes * bytes) :=
  reverse (foldl log_step [] log).

(** What the clients and the pump do, one after the other: the order of a
    schedule is the order in which the atomic [put] calls and the turns of
    the pump take effect. *)
Inductive action :=
  | Submit (method url : str) (headers : dict) (body : str)
  | Pump.

Definition step (s : Ship.ShipProxy) (a : action) : Ship.ShipProxy :=
  match a with
  | Submit m u h bd => snd (Ship.queue_request m u h bd s)
  | Pump => Ship.process_requests_body s
  end.

Definition run (acts : list action) (s : Ship.ShipProxy) : Ship.ShipProxy :=
  foldl step s acts.

(** The items of a schedule, in enqueue order, as [queue_request] creates
    them. *)
Definition submitted (acts : list action) : list Ship.RequestItem :=
  omap (fun a => match a with
                 | Submit m u h bd =>
                     Some (Ship.mkRequestItem m u h bd false None None)
                 | Pump => None
                 end) acts.

(** The item after the pump has read the response payload [r] for it. *)
Definition completed (r : bytes) (it : Ship.RequestItem) : Ship.RequestItem :=
  Ship.set_event
    (if is_empty r then Ship.set_error (b "Failed to read response data") it
     else Ship.set_response r it).

Definition fits32 (d : bytes) : bool := len d <? UINT32_LIMIT.

(** The bytes the pump writes for an item: its request text as a type-0
    frame. *)
Definition request_frame (it : Ship.RequestItem) : bytes :=
  wire 0 (Ship.build_request_string it).

Definition request_fits (it : Ship.RequestItem) : bool :=
  fits32 (Ship.build_request_string it).

(** The state of the ship proxy after the items [reqs] have been enqueued on
    a proxy started on [sock0] and the first [k] of them have been through
    the pump, when the peer answers the n-th request written with a type-1
    frame of payload [resps !! n]. *)
Definition pump_invariant (resps : list bytes) (rest : list recv_event)
    (sock0 : socket) (reqs : list Ship.RequestItem) (k : nat)
    (s : Ship.ShipProxy) : Prop :=
  (k <= length reqs)%nat
  /\ Ship.connected s = true
  /\ Ship.request_queue s = seq k (length reqs - k)
  /\ Ship.heap s = zip_with completed (take k resps) (take k reqs) ++ drop k reqs
  /\ sent (Ship.tcp_sock s)
     = sent sock0 ++ concat (map request_frame (take k reqs))
  /\ foldl log_step [] (calls (Ship.tcp_sock s))
     = reverse (zip (map request_frame (take k reqs))
                    (map (wire 1) (take k resps)))
  /\ sends_succeed (Ship.tcp_sock s) = true
  /\ carries (concat (map (wire 1) (drop k resps))) rest (Ship.tcp_sock s).

(** The canonical HTTP/1.1 text of a request, in the words of the
    specification: request line, one [name: value] line per header, a blank
    line, the body. *)
Definition header_line (hv : str * str) : str :=
  fst hv ++ b ": " ++ snd hv ++ CRLF.

Definition canonical_request (method url : str) (headers : dict) (body : str)
  : str :=
  method ++ [SP] ++ url ++ b " HTTP/1.1" ++ CRLF
    ++ concat (map header_line headers) ++ CRLF ++ body.

(** The type-0 frame of the canonical text of an item's request. *)
Definition canonical_frame (it : Ship.RequestItem) : bytes :=
  wire 0 (canonical_request (Ship.method it) (Ship.url it)
                            (Ship.headers it) (Ship.body it)).

(** A fresh socket whose peer sends the given chunks and then closes. *)
Definition incoming (cs : list bytes) : socket :=
  Socket [] [] (map Chunk cs) [] false.

(** Instances of the library functions for the worked examples.
    [urlparse_sample] gives what [urlparse] gives on the two URLs of the
    examples; [strip_sample] removes ASCII blanks at both ends, which is
    what [str.strip] does on the header values of the examples. *)
Definition urlparse_sample (u : str) : result Offshore.parsed_url :=
  if bool_decide (u = b "http://example.com/") then
    Ok (Offshore.mkParsedUrl (b "http") (Some (b "example.com")) None)
  else if bool_decide (u = b "/index.html") then
    Ok (Offshore.mkParsedUrl [] None None)
  else Raise ValueErrorCls (b "not a sample URL").

Definition is_blank (c : byte) : bool :=
  bool_decide (c = SP) || bool_decide (c = x09) || bool_decide (c = CR)
  || bool_decide (c = LF).

Fixpoint lstrip_sample (s : str) : str :=
  match s with
  | c :: s' => if is_blank c then lstrip_sample s' else s
  | [] => []
  end.

Definition strip_sample (s : str) : str :=
  reverse (lstrip_sample (reverse (lstrip_sample s))).

(** A destination that refuses the connection. *)
Definition unreachable : Offshore.destination :=
  Offshore.mkDestination
    (Some (OSErrorCls, b "[Errno 111] Connection refused")) (incoming []).

(** A destination that accepts everything and never answers. *)
Definition mute : Offshore.destination :=
  Offshore.mkDestination None
    (Socket [] [] [RecvRaise SocketTimeoutCls (b "timed out")] [] false).

(** A request the serving loop can take in and answer: not empty, and both
    it and its answer fit a frame; the frame of its answer; the destination
    calls its handling makes. *)
Definition servable (urlparse : str -> result Offshore.parsed_url)
    (strip : str -> str) (net : Offshore.network) (q : bytes) : bool :=
  negb (is_empty q) && fits32 q
  && fits32 (fst (Offshore.process_request urlparse strip net q)).

Definition answer_frame (urlparse : str -> result Offshore.parsed_url)
    (strip : str -> str) (net : Offshore.network) (q : bytes) : bytes :=
  wire 1 (fst (Offshore.process_request urlparse strip net q)).

Definition answer_calls (urlparse : str -> result Offshore.parsed_url)
    (strip : str -> str) (net : Offshore.network) (q : bytes)
  : list Offshore.dest_call :=
  snd (Offshore.process_request urlparse strip net q).

(** What may follow the bytes of a destination's response: the end of the
    connection, a timeout, or a failure, but no further data; and what the
    collecting loop then makes of the bytes [acc] it has. *)
Definition stream_ends (tl : list recv_event) : bool :=
  match tl with
  | Chunk (_ :: _) :: _ => false
  | _ => true
  end.

Definition collected (tl : list recv_event) (acc : bytes) : result bytes :=
  match tl with
  | RecvRaise SocketTimeoutCls _ :: _ => Ok acc
  | RecvRaise cls msg :: _ => Raise cls msg
  | _ => Ok acc
  end.

(** The answer to a CONNECT request. *)
Definition connection_established : bytes :=
  b "HTTP/1.1 200 Connection Established" ++ CRLF ++ CRLF.

(** The destination accepts the connection and the request, and nothing has
    arrived from it when the read timeout expires. *)
Definition silent (d : Offshore.destination) : Prop :=
  Offshore.connect_raises d = None
  /\ sends_succeed (Offshore.target_sock d) = true
  /\ exists msg rest,
       inbox (Offshore.target_sock d) = RecvRaise SocketTimeoutCls msg :: rest.


(** * The string functions on small inputs *)

Example split_lines :
  split CRLF None (b "GET / HTTP/1.1" ++ CRLF ++ b "Host: a" ++ CRLF ++ CRLF)
  = [b "GET / HTTP/1.1"; b "Host: a"; []; []].
Proof. reflexivity. Qed.

Example split_request_line :
  split [SP] (Some 2%nat) (b "GET /a b HTTP/1.1") = [b "GET"; b "/a"; b "b HTTP/1.1"].
Proof. reflexivity. Qed.

Example split_short_request_line :
  split [SP] (Some 2%nat) (b "CONNECT example.com:443")
  = [b "CONNECT"; b "example.com:443"].
Proof. reflexivity. Qed.

Example split_empty : split [SP] (Some 2%nat) [] = [[]].
Proof. reflexivity. Qed.

Example split_host_header :
  split (b ":") (Some 1%nat) (b "Host: example.com:8080")
  = [b "Host"; b " example.com:8080"].
Proof. reflexivity. Qed.

Example lower_host : lower (b "HoSt: X") = b "host: x".
Proof. reflexivity. Qed.

Example decode_ascii : decode_utf8 (b "abc") = Ok (b "abc").
Proof. reflexivity. Qed.

Example decode_two_byte : decode_utf8 [xc3; xa9] = Ok [xc3; xa9].
Proof. reflexivity. Qed.

Example decode_overlong : exists cls msg, decode_utf8 [xc0; x80] = Raise cls msg.
Proof. eexists _, _. reflexivity. Qed.

Example decode_surrogate :
  exists cls msg, decode_utf8 [xed; xa0; x80] = Raise cls msg.
Proof. eexists _, _. reflexivity. Qed.

Example decode_truncated : exists cls msg, decode_utf8 [xe2; x82] = Raise cls msg.
Proof. eexists _, _. reflexivity. Qed.

Example pack_65536 : pack_be32 65536 = Ok [x00; x01; x00; x00].
Proof. reflexivity. Qed.

Example pack_max : pack_be32 4294967295 = Ok [xff; xff; xff; xff].
Proof. reflexivity. Qed.

Example pack_too_large :
  pack_be32 4294967296 = Raise StructErrorCls struct_error_msg.
Proof. reflexivity. Qed.

Example dict_of_repeated_names :
  dict_of_message [(b "A", b "1"); (b "a", b "2"); (b "A", b "3")]
  = [(b "A", b "1"); (b "a", b "1")].
Proof. reflexivity. Qed.

(** * Framing *)

Section Framing.

Lemma byte_of_N_to_N (n : N) : Byte.to_N (byte_of_N n) = n mod 256.
Proof.
  unfold byte_of_N. destruct (Byte.of_N (n mod 256)) as [c|] eqn:E.
  - apply Byte.to_of_N in E. exact E.
  - apply Byte.of_N_None_iff in E.
    pose proof (N.mod_upper_bound n 256). lia.
Qed.

Lemma unpack_pack (n : N) :
  n < UINT32_LIMIT ->
  unpack_be32 [byte_of_N (n / 2 ^ 24); byte_of_N (n / 2 ^ 16);
               byte_of_N (n / 2 ^ 8); byte_of_N n] = n.
Proof.
  unfold UINT32_LIMIT, unpack_be32. intros Hn.
  rewrite !byte_of_N_to_N.
  change (2 ^ 24) with 16777216. change (2 ^ 16) with 65536.
  change (2 ^ 8) with 256. change (2 ^ 32) with 4294967296 in Hn.
  zify. Z.to_euclidean_division_equations. lia.
Qed.

Lemma frame_wire (t : N) (payload : bytes) :
  fits32 payload = true -> t < 256 -> frame t payload = Ok (wire t payload).
Proof.
  unfold fits32, frame, pack_be32, bytes_of_int, wire.
  intros -> Ht. apply N.ltb_lt in Ht. rewrite Ht. reflexivity.
Qed.

Lemma wire_length_field (t : N) (payload : bytes) :
  fits32 payload = true ->
  unpack_be32 (take 4 (wire t payload)) = len payload.
Proof.
  intros H. apply N.ltb_lt in H. unfold wire. cbn [take app].
  apply unpack_pack, H.
Qed.

End Framing.

(** * Reading from a socket *)

Section Reading.

Lemma after_reading_refl (s : socket) : after_reading [] s s.
Proof.
  repeat split. exists []. cbn. rewrite app_nil_r. done.
Qed.

Lemma after_reading_trans (a a' : bytes) (s s1 s2 : socket) :
  after_reading a s s1 -> after_reading a' s1 s2 ->
  after_reading (a ++ a') s s2.
Proof.
  intros (E1 & E2 & E3 & p & E4 & E5) (F1 & F2 & F3 & q & F4 & F5).
  repeat split; try congruence.
  exists (p ++ q). rewrite map_app, concat_app, app_assoc.
  split; congruence.
Qed.

(** One [recv] on a socket that still carries the non-empty [a]: a non-empty
    prefix of [a] comes back. *)
Lemma recv_carries (a more : bytes) (rest : list recv_event) (s : socket) :
  carries (a ++ more) rest s -> a <> [] ->
  exists chunk a' s1,
    recv (length a) s = (Ok chunk, s1) /\ chunk <> [] /\ a = chunk ++ a'
    /\ carries (a' ++ more) rest s1 /\ after_reading chunk s s1.
Proof.
  intros (cs & Hin & Hne & Hcat) Ha.
  destruct cs as [|c cs0].
  { destruct a; [done | discriminate Hcat]. }
  cbn in Hne, Hcat. apply andb_true_iff in Hne as [Hc Hcs0].
  set (k := length a).
  assert (Htake : a = take k c ++ take (k - length c) (concat cs0)).
  { rewrite <- take_app, Hcat. symmetry. apply take_app_length. }
  assert (Hdrop : more = drop k c ++ drop (k - length c) (concat cs0)).
  { rewrite <- drop_app, Hcat. symmetry. apply drop_app_length. }
  unfold recv. rewrite Hin. cbn [map app].
  eexists (take k c), (take (k - length c) (concat cs0)), _.
  split; [reflexivity|]. split.
  { destruct c; [discriminate Hc|]. destruct a; [done|]. discriminate. }
  split; [exact Htake|]. split.
  - destruct (drop k c) as [|y l] eqn:Ed; cbn [is_empty].
    + exists cs0. cbn. split; [done|]. split; [done|].
      rewrite Hdrop. cbn. symmetry. apply take_drop.
    + exists ((y :: l) :: cs0). cbn. split; [done|]. split; [done|].
      assert (k < length c)%nat as Hlt.
      { pose proof (length_drop c k) as HL. rewrite Ed in HL. cbn in HL. lia. }
      rewrite Hdrop. replace (k - length c)%nat with O by lia.
      rewrite drop_0. reflexivity.
  - repeat split. exists [take k c]. cbn. rewrite app_nil_r. done.
Qed.

(** [_recv_all] on a socket that carries at least the bytes asked for. *)
Lemma recv_all_loop_carries (fuel n : nat) :
  forall (data0 a more : bytes) (rest : list recv_event) (s : socket),
    carries (a ++ more) rest s ->
    (length data0 + length a = n)%nat -> (length a <= fuel)%nat ->
    exists s', recv_all_loop fuel n data0 s = (Ok (Some (data0 ++ a)), s')
               /\ carries more rest s' /\ after_reading a s s'.
Proof.
  induction fuel as [|fuel IH]; intros data0 a more rest s Hc Hn Hf.
  - destruct a; [|cbn in Hf; lia]. cbn in Hc. cbn [recv_all_loop].
    replace (length data0 <? n)%nat with false
      by (symmetry; apply Nat.ltb_ge; cbn in Hn; lia).
    exists s. rewrite app_nil_r. split; [done|]. split; [done|].
    apply after_reading_refl.
  - cbn [recv_all_loop]. destruct a as [|x a0].
    { cbn in Hc. replace (length data0 <? n)%nat with false
        by (symmetry; apply Nat.ltb_ge; cbn in Hn; lia).
      exists s. rewrite app_nil_r. split; [done|]. split; [done|].
      apply after_reading_refl. }
    replace (length data0 <? n)%nat with true
      by (symmetry; apply Nat.ltb_lt; cbn in Hn; lia).
    replace (n - length data0)%nat with (length (x :: a0)) by lia.
    destruct (recv_carries (x :: a0) more rest s Hc)
      as (chunk & a' & s1 & Hr & Hne & Ha & Hc1 & Hrd); [done|].
    unfold bind. rewrite Hr.
    destruct chunk as [|y chunk0]; [done|]. cbn [is_empty].
    destruct (IH (data0 ++ y :: chunk0) a' more rest s1 Hc1)
      as (s' & Hl & Hc' & Hrd').
    { rewrite length_app. rewrite Ha, length_app in Hn. lia. }
    { rewrite Ha, length_app in Hf. cbn in Hf. lia. }
    exists s'. rewrite Hl, <- app_assoc, <- Ha.
    split; [done|]. split; [done|]. rewrite Ha.
    eapply after_reading_trans; eassumption.
Qed.

Lemma recv_all_carries (a more : bytes) (rest : list recv_event) (s : socket) :
  carries (a ++ more) rest s ->
  exists s', _recv_all (len a) s = (Ok (Some a), s')
             /\ carries more rest s' /\ after_reading a s s'.
Proof.
  intros Hc. unfold _recv_all, len. rewrite Nat2N.id.
  apply (recv_all_loop_carries _ _ [] a more rest s Hc); cbn; lia.
Qed.

(** The fuel of [recv_all_loop] is never the reason for its result: any two
    amounts of at least [length - len(data)] turns give the same result. *)
Lemma recv_all_fuel (n : nat) :
  forall (fuel fuel' : nat) (data0 : bytes) (s : socket),
    (n - length data0 <= fuel)%nat -> (n - length data0 <= fuel')%nat ->
    recv_all_loop fuel n data0 s = recv_all_loop fuel' n data0 s.
Proof.
  induction fuel as [|fuel IH]; intros fuel' data0 s Hf Hf'.
  - destruct fuel'; cbn [recv_all_loop];
      replace (length data0 <? n)%nat with false
        by (symmetry; apply Nat.ltb_ge; lia); reflexivity.
  - destruct fuel' as [|fuel'].
    + cbn [recv_all_loop].
      replace (length data0 <? n)%nat with false
        by (symmetry; apply Nat.ltb_ge; lia). reflexivity.
    + cbn [recv_all_loop].
      destruct (length data0 <? n)%nat eqn:El; [|reflexivity].
      apply Nat.ltb_lt in El. unfold bind.
      destruct (recv (n - length data0) s) as [[chunk|cls msg] s1]; [|done].
      destruct chunk as [|y chunk0]; [done|]. cbn [is_empty].
      apply IH; rewrite length_app; cbn; lia.
Qed.

End Reading.

(** * Decoding a framed message *)

Section Decoding.

Lemma wire_header (t : N) (payload : bytes) :
  wire t payload = header_of t payload ++ payload.
Proof. reflexivity. Qed.

Lemma recv_header (t : N) (r more : bytes) (rest : list recv_event) (s : socket) :
  carries (wire t r ++ more) rest s ->
  exists s1, _recv_all 5 s = (Ok (Some (header_of t r)), s1)
             /\ carries (r ++ more) rest s1
             /\ after_reading (header_of t r) s s1.
Proof.
  intros Hc. rewrite wire_header, <- app_assoc in Hc.
  apply (recv_all_carries (header_of t r)) in Hc. exact Hc.
Qed.

Lemma header_type (t : N) (r : bytes) :
  t < 256 ->
  header_of t r !! 4%nat = Some (byte_of_N t) /\ Byte.to_N (byte_of_N t) = t.
Proof.
  intros Ht. split; [reflexivity|].
  rewrite byte_of_N_to_N. apply N.mod_small, Ht.
Qed.

Lemma header_length (t : N) (r : bytes) :
  fits32 r = true -> unpack_be32 (take 4 (header_of t r)) = len r.
Proof. intros H. apply (wire_length_field t r H). Qed.

(** [read_response] on a type-1 frame: the payload comes back, unless it is
    empty. *)
Lemma read_response_frame (r more : bytes) (rest : list recv_event) (s : socket) :
  fits32 r = true -> carries (wire 1 r ++ more) rest s ->
  exists s',
    Ship.read_response s
    = (if is_empty r
       then Raise ExceptionCls (b "Failed to read response data")
       else Ok r, s')
    /\ carries more rest s' /\ after_reading (wire 1 r) s s'.
Proof.
  intros Hfit Hc.
  destruct (recv_header 1 r more rest s Hc) as (s1 & H1 & Hc1 & Hr1).
  destruct (recv_all_carries r more rest s1 Hc1) as (s2 & H2 & Hc2 & Hr2).
  exists s2. split; [|split; [exact Hc2|]].
  - unfold Ship.read_response, bind. rewrite H1.
    change (Ship.falsy (Some (header_of 1 r))) with false. cbv iota.
    cbn [default from_option id]. rewrite (header_length 1 r Hfit).
    destruct (header_type 1 r) as [-> ->]; [lia|].
    cbn [N.eqb Pos.eqb negb]. rewrite H2.
    cbn [Ship.falsy]. destruct r; reflexivity.
  - rewrite wire_header. eapply after_reading_trans; eassumption.
Qed.

(** The offshore reader on a type-0 frame. *)
Lemma read_request_frame (q more : bytes) (rest : list recv_event) (s : socket) :
  fits32 q = true -> carries (wire 0 q ++ more) rest s ->
  exists s',
    Offshore.read_request s
    = (Ok (if is_empty q then inl Offshore.Break else inr q), s')
    /\ carries more rest s' /\ after_reading (wire 0 q) s s'.
Proof.
  intros Hfit Hc.
  destruct (recv_header 0 q more rest s Hc) as (s1 & H1 & Hc1 & Hr1).
  destruct (recv_all_carries q more rest s1 Hc1) as (s2 & H2 & Hc2 & Hr2).
  exists s2. split; [|split; [exact Hc2|]].
  - unfold Offshore.read_request, bind. rewrite H1.
    change (Ship.falsy (Some (header_of 0 q))) with false. cbv iota.
    cbn [default from_option id]. rewrite (header_length 0 q Hfit).
    destruct (header_type 0 q) as [-> ->]; [lia|].
    cbn [N.eqb negb]. rewrite H2.
    cbn [Ship.falsy]. destruct q; reflexivity.
  - rewrite wire_header. eapply after_reading_trans; eassumption.
Qed.

End Decoding.

(** * The exchange of the upstream pump *)

Section Exchange.

Lemma sendall_ok (data : bytes) (s : socket) :
  sends_succeed s = true ->
  exists s1, sendall data s = (Ok tt, s1)
             /\ sent s1 = sent s ++ data
             /\ calls s1 = calls s ++ [CallSend data]
             /\ inbox s1 = inbox s /\ closed s1 = closed s
             /\ sends_succeed s1 = true.
Proof.
  unfold sends_succeed, sendall. intros H.
  destruct (send_script s) as [|[|k cls msg] script]; cbn in H.
  - eexists. split; [reflexivity|]. cbn. done.
  - eexists. split; [reflexivity|]. cbn. done.
  - discriminate H.
Qed.

Lemma send_message_ok (t : N) (payload : bytes) (s : socket) :
  sends_succeed s = true -> fits32 payload = true -> t < 256 ->
  exists s1, send_message t payload s = (Ok tt, s1)
             /\ sent s1 = sent s ++ wire t payload
             /\ calls s1 = calls s ++ [CallSend (wire t payload)]
             /\ inbox s1 = inbox s /\ closed s1 = closed s
             /\ sends_succeed s1 = true.
Proof.
  intros Hs Hfit Ht. unfold send_message, bind, lift.
  rewrite (frame_wire t payload Hfit Ht). apply sendall_ok, Hs.
Qed.

Lemma carries_inbox (stream : bytes) (rest : list recv_event) (s s1 : socket) :
  inbox s1 = inbox s -> carries stream rest s -> carries stream rest s1.
Proof. intros E (cs & H). exists cs. rewrite E. exact H. Qed.

(** One exchange on a healthy connection whose peer answers with a type-1
    frame of payload [r]. *)
Lemma exchange_frame (q r more : bytes) (rest : list recv_event) (s : socket) :
  sends_succeed s = true -> fits32 q = true -> fits32 r = true ->
  carries (wire 1 r ++ more) rest s ->
  exists s',
    Ship.exchange q s
    = (if is_empty r
       then Raise ExceptionCls (b "Failed to read response data")
       else Ok r, s')
    /\ carries more rest s' /\ sends_succeed s' = true
    /\ sent s' = sent s ++ wire 0 q /\ closed s' = closed s
    /\ exists pieces,
         calls s' = calls s ++ CallSend (wire 0 q) :: map CallRecv pieces
         /\ concat pieces = wire 1 r.
Proof.
  intros Hs Hq Hr Hc.
  destruct (send_message_ok 0 q s Hs Hq) as (s1 & E1 & S1 & C1 & I1 & X1 & O1);
    [lia|].
  destruct (read_response_frame r more rest s1 Hr (carries_inbox _ _ _ _ I1 Hc))
    as (s2 & E2 & Hc2 & (S2 & P2 & X2 & pieces & C2 & K2)).
  exists s2. unfold Ship.exchange, bind. rewrite E1, E2.
  split; [reflexivity|]. split; [exact Hc2|].
  split; [unfold sends_succeed in *; congruence|].
  split; [congruence|]. split; [congruence|].
  exists pieces. rewrite C2, C1, <- app_assoc. done.
Qed.

End Exchange.

(** * Round trip of a framed message *)

(** C2 (as the code has it).  For every non-empty payload whose length fits
    an unsigned 32-bit count, [send_message] writes the four big-endian bytes
    of exactly that length, the type byte and the payload; the offshore
    reader decodes a type-0 frame and the ship's [read_response] a type-1
    frame back to the original payload, however the bytes are cut into
    chunks on the way, and leaves the bytes after the frame unread. *)
Theorem frame_round_trip
    (payload more : bytes) (rest : list recv_event) (s0 s1 : socket) :
  payload <> [] ->
  fits32 payload = true ->
  carries (wire 0 payload ++ more) rest s0 ->
  carries (wire 1 payload ++ more) rest s1 ->
  (frame 0 payload = Ok (wire 0 payload)
   /\ frame 1 payload = Ok (wire 1 payload))
  /\ (unpack_be32 (take 4 (wire 0 payload)) = len payload
      /\ unpack_be32 (take 4 (wire 1 payload)) = len payload)
  /\ (exists s', Offshore.read_request s0 = (Ok (inr payload), s')
                 /\ carries more rest s')
  /\ (exists s', Ship.read_response s1 = (Ok payload, s')
                 /\ carries more rest s').
Proof.
  intros Hne Hfit Hc0 Hc1.
  split; [split; apply frame_wire; (exact Hfit || lia)|].
  split; [split; apply wire_length_field, Hfit|].
  split.
  - destruct (read_request_frame payload more rest s0 Hfit Hc0)
      as (s' & E & Hc & _).
    exists s'. destruct payload; [done|]. split; [exact E | exact Hc].
  - destruct (read_response_frame payload more rest s1 Hfit Hc1)
      as (s' & E & Hc & _).
    exists s'. destruct payload; [done|]. split; [exact E | exact Hc].
Qed.

Lemma frame_round_trip_witness :
  let payload := b "GET" in
  let more := b "tail" in
  let s0 := incoming [take 2 (wire 0 payload); drop 2 (wire 0 payload ++ more)] in
  let s1 := incoming [wire 1 payload ++ more] in
  (payload <> [] /\ fits32 payload = true
   /\ carries (wire 0 payload ++ more) [] s0
   /\ carries (wire 1 payload ++ more) [] s1)
  /\ (exists s', Offshore.read_request s0 = (Ok (inr payload), s')
                 /\ carries more [] s')
  /\ (exists s', Ship.read_response s1 = (Ok payload, s')
                 /\ carries more [] s').
Proof.
  intros payload more s0 s1.
  assert (H0 : carries (wire 0 payload ++ more) [] s0).
  { exists [take 2 (wire 0 payload); drop 2 (wire 0 payload ++ more)].
    repeat split; reflexivity. }
  assert (H1 : carries (wire 1 payload ++ more) [] s1).
  { exists [wire 1 payload ++ more]. repeat split; reflexivity. }
  split; [repeat split; (discriminate || reflexivity || assumption)|].
  apply (frame_round_trip payload more [] s0 s1);
    (discriminate || reflexivity || assumption).
Defined.

(** C2 as stated fails at payload size 0, for both types and both readers,
    and the ship's reader does not decode a type-0 frame at all. *)
Lemma frame_round_trip_empty_payload :
  fst (Ship.read_response (incoming [wire 1 []]))
    = Raise ExceptionCls (b "Failed to read response data")
  /\ fst (Offshore.read_request (incoming [wire 0 []])) = Ok (inl Offshore.Break)
  /\ fst (Ship.read_response (incoming [wire 0 (b "a")]))
     = Raise ExceptionCls (b "Unexpected message type: 0")
  /\ ~ (forall t payload,
          (t = 0 \/ t = 1) -> fits32 payload = true ->
          fst (Ship.read_response (incoming [wire t payload])) = Ok payload).
Proof.
  split; [vm_compute; reflexivity|].
  split; [vm_compute; reflexivity|].
  split; [vm_compute; reflexivity|].
  intros H. specialize (H 1 [] (or_intror eq_refl) eq_refl).
  vm_compute in H. discriminate H.
Qed.

(** * The synthesized error responses of the remote executor *)

Lemma error_body_length (code : N) (text : str) :
  length (Offshore.error_body code text)
  = (36 + length (str_of_N code) + length text)%nat.
Proof.
  unfold Offshore.error_body. rewrite !length_app. cbn. lia.
Qed.

(** C9.  Whatever the status code and text, the response ends with the header
    [Content-Length: 54], the blank line and the HTML body; the body is
    [36 + digits of the code + length of the text] bytes long, which is 50
    for 502 Bad Gateway, 60 for 500 Internal Server Error and 70 for the 400
    response: the declared length is not the length of the body. *)
Theorem error_response_declares_54 (code : N) (text : str) :
  (exists status_line,
     Offshore.create_error_response code text
     = status_line ++ b "Content-Type: text/html" ++ CRLF
         ++ b "Content-Length: 54" ++ CRLF ++ CRLF
         ++ Offshore.error_body code text
     /\ status_line = b "HTTP/1.1 " ++ str_of_N code ++ [SP] ++ text ++ CRLF)
  /\ length (Offshore.error_body code text)
     = (36 + length (str_of_N code) + length text)%nat
  /\ length (Offshore.error_body 502 (b "Bad Gateway")) = 50%nat
  /\ length (Offshore.error_body 500 (b "Internal Server Error")) = 60%nat
  /\ length (Offshore.error_body 400 (b "Bad Request - No host specified")) = 70%nat
  /\ length (Offshore.error_body 502 (b "Bad Gateway"))
     <> length (Offshore.error_body 500 (b "Internal Server Error")).
Proof.
  split.
  - eexists. split; [|reflexivity].
    unfold Offshore.create_error_response. rewrite <- !app_assoc. reflexivity.
  - split; [apply error_body_length|]. repeat split; vm_compute; congruence.
Qed.

(** * The reply of the local dispatcher *)

Lemma read_response_nonempty (s s' : socket) (r : bytes) :
  Ship.read_response s = (Ok r, s') -> r <> [].
Proof.
  unfold Ship.read_response, bind, raise, ret.
  destruct (_recv_all 5 s) as [[h|] s1]; try discriminate.
  destruct (Ship.falsy h); [discriminate|].
  destruct (default [] h !! 4%nat); [|discriminate].
  destruct (negb _); [discriminate|].
  destruct (_recv_all _ s1) as [[[d|]|] s2]; try discriminate.
  destruct d; cbn; [discriminate|]. intros [= <- _]. discriminate.
Qed.

(** X27.  After the wait: an item with a non-empty error message gets a 502
    carrying that message; an item nobody completed (no error, no response)
    gets a 504; an item with a response gets exactly the response bytes
    written to the client. *)
Theorem dispatcher_reply (it : Ship.RequestItem) :
  (forall msg, Ship.error it = Some msg -> msg <> [] ->
     Ship.handle_request_reply it = Ship.SendError 502 (b "Proxy Error: " ++ msg))
  /\ (Ship.error it = None -> Ship.response it = None ->
     Ship.handle_request_reply it = Ship.SendError 504 (b "Gateway Timeout"))
  /\ (forall r, Ship.error it = None -> Ship.response it = Some r -> r <> [] ->
     Ship.handle_request_reply it = Ship.WfileWrite r)
  /\ (forall msg, Ship.SendError 504 (b "Gateway Timeout")
                  <> Ship.SendError 502 (b "Proxy Error: " ++ msg)).
Proof.
  unfold Ship.handle_request_reply, Ship.truthy.
  split; [|split; [|split]].
  - intros msg -> Hne. destruct msg; [done|]. reflexivity.
  - intros -> ->. reflexivity.
  - intros r -> -> Hne. destruct r; [done|]. reflexivity.
  - intros msg. discriminate.
Qed.

Lemma dispatcher_reply_witness :
  let failed := Ship.mkRequestItem (b "GET") (b "/") [] [] true None
                                   (Some (b "Failed to read response header")) in
  let untouched := Ship.mkRequestItem (b "GET") (b "/") [] [] false None None in
  let answered := Ship.mkRequestItem (b "GET") (b "/") [] [] true
                                     (Some (b "HTTP/1.1 204 No Content")) None in
  Ship.handle_request_reply failed
    = Ship.SendError 502 (b "Proxy Error: Failed to read response header")
  /\ Ship.handle_request_reply untouched = Ship.SendError 504 (b "Gateway Timeout")
  /\ Ship.handle_request_reply answered = Ship.WfileWrite (b "HTTP/1.1 204 No Content").
Proof.
  intros failed untouched answered.
  split; [|split].
  - apply (proj1 (dispatcher_reply failed)); [reflexivity | discriminate].
  - apply (proj1 (proj2 (dispatcher_reply untouched))); reflexivity.
  - apply (proj1 (proj2 (proj2 (dispatcher_reply answered))));
      [reflexivity | reflexivity | discriminate].
Defined.

(** C7, the code at a failing input.  The peer's header declares a payload
    of 4294967295 bytes and the [recv] of the payload raises [MemoryError],
    whose message is the empty string.  The pump stores [str(e)], the empty
    string, as the item's error and signals the item; the handler tests
    [if request_item.error:], takes the empty string for no error, finds no
    response and answers 504 Gateway Timeout, although the error of the
    item is set and the wait did not time out.  The same read failing with
    a message is answered 502. *)
Theorem empty_error_message_is_answered_504 :
  let it := Ship.mkRequestItem (b "GET") (b "http://a.example/") [] []
                               false None None in
  let failing (e : recv_event) :=
    Ship.process_requests_body
      (Ship.mkShipProxy [0%nat] [it]
         (Socket [] [] [Chunk [xff; xff; xff; xff; x01]; e] [] false)
         true true) in
  let no_memory := failing (RecvRaise MemoryErrorCls []) in
  let reset :=
    failing (RecvRaise OSErrorCls (b "[Errno 104] Connection reset by peer")) in
  ((Ship.error <$> Ship.heap no_memory !! 0%nat) = Some (Some [])
   /\ (Ship.response_event <$> Ship.heap no_memory !! 0%nat) = Some true
   /\ (Ship.response <$> Ship.heap no_memory !! 0%nat) = Some None
   /\ (Ship.handle_request_reply <$> Ship.heap no_memory !! 0%nat)
      = Some (Ship.SendError 504 (b "Gateway Timeout")))
  /\ (Ship.handle_request_reply <$> Ship.heap reset !! 0%nat)
     = Some (Ship.SendError 502
               (b "Proxy Error: [Errno 104] Connection reset by peer")).
Proof.
  cbv zeta. repeat split; lazy; reflexivity.
Qed.

(** * One turn of the pump *)

Lemma process_requests_body_connected
    (s : Ship.ShipProxy) (i : nat) (q : list nat) (it : Ship.RequestItem) :
  Ship.request_queue s = i :: q -> Ship.heap s !! i = Some it ->
  Ship.connected s = true ->
  Ship.process_requests_body s
  = let '(r, sock') :=
      Ship.exchange (Ship.build_request_string it) (Ship.tcp_sock s) in
    Ship.mkShipProxy q
      (<[i := Ship.set_event
                (match r with
                 | Ok response0 => Ship.set_response response0 it
                 | Raise _ msg => Ship.set_error msg it
                 end)]> (Ship.heap s))
      sock' (Ship.connected s) (Ship.running s).
Proof.
  intros Hq Hh Hc. unfold Ship.process_requests_body.
  rewrite Hq, Hh, Hc. reflexivity.
Qed.

(** C10.  When the peer answers with a type-1 frame of declared length 0,
    [read_response] raises "Failed to read response data" (the frame itself
    is consumed); the pump stores that message as the item's error, sets no
    response, signals the item, and the dispatcher answers its client with a
    502 that carries the message. *)
Theorem empty_response_is_an_error
    (s : Ship.ShipProxy) (i : nat) (q : list nat) (it : Ship.RequestItem)
    (more : bytes) (rest : list recv_event) :
  Ship.request_queue s = i :: q ->
  Ship.heap s !! i = Some it ->
  Ship.connected s = true ->
  Ship.response it = None ->
  sends_succeed (Ship.tcp_sock s) = true ->
  fits32 (Ship.build_request_string it) = true ->
  carries (wire 1 [] ++ more) rest (Ship.tcp_sock s) ->
  (exists sock',
     Ship.read_response (Ship.tcp_sock s)
     = (Raise ExceptionCls (b "Failed to read response data"), sock')
     /\ carries more rest sock')
  /\ exists it',
       Ship.heap (Ship.process_requests_body s) !! i = Some it'
       /\ Ship.response it' = None
       /\ Ship.error it' = Some (b "Failed to read response data")
       /\ Ship.response_event it' = true
       /\ Ship.handle_request_reply it'
          = Ship.SendError 502 (b "Proxy Error: Failed to read response data")
       /\ carries more rest (Ship.tcp_sock (Ship.process_requests_body s)).
Proof.
  intros Hq Hh Hconn Hresp Hs Hfit Hc. split.
  - destruct (read_response_frame [] more rest _ eq_refl Hc) as (s' & E & Hc' & _).
    exists s'. split; [exact E | exact Hc'].
  - rewrite (process_requests_body_connected s i q it Hq Hh Hconn).
    destruct (exchange_frame (Ship.build_request_string it) [] more rest
                (Ship.tcp_sock s) Hs Hfit eq_refl Hc)
      as (s' & E & Hc' & _).
    rewrite E. cbn [is_empty Ship.heap Ship.tcp_sock].
    eexists. split.
    { apply list_lookup_insert_eq. eapply lookup_lt_Some, Hh. }
    cbn. rewrite Hresp. repeat split; done.
Qed.

Lemma empty_response_is_an_error_witness :
  let sock := incoming [wire 1 [] ++ wire 1 (b "next")] in
  let s := snd (Ship.queue_request (b "GET") (b "http://example.com/") [] []
                                   (Ship.started sock)) in
  exists it',
    Ship.heap (Ship.process_requests_body s) !! 0%nat = Some it'
    /\ Ship.response it' = None
    /\ Ship.error it' = Some (b "Failed to read response data")
    /\ Ship.response_event it' = true
    /\ Ship.handle_request_reply it'
       = Ship.SendError 502 (b "Proxy Error: Failed to read response data")
    /\ carries (wire 1 (b "next")) []
               (Ship.tcp_sock (Ship.process_requests_body s)).
Proof.
  intros sock s.
  refine (proj2 (empty_response_is_an_error s 0 []
                   (Ship.mkRequestItem (b "GET") (b "http://example.com/") [] []
                                       false None None)
                   (wire 1 (b "next")) [] _ _ _ _ _ _ _));
    try reflexivity.
  exists [wire 1 [] ++ wire 1 (b "next")]. repeat split; reflexivity.
Defined.

(** * The remote executor *)

Section RemoteExecutor.

Variable urlparse : str -> result Offshore.parsed_url.
Variable strip : str -> str.
Variable net : Offshore.network.

(** A turn of the serving loop on a framed request, in terms of what
    [process_request] returns for it. *)
Lemma serve_one_request
    (request_data more : bytes) (rest : list recv_event) (st : Offshore.serving) :
  request_data <> [] ->
  fits32 request_data = true ->
  fits32 (fst (Offshore.process_request urlparse strip net request_data)) = true ->
  sends_succeed (Offshore.conn st) = true ->
  carries (wire 0 request_data ++ more) rest (Offshore.conn st) ->
  exists c',
    Offshore.serve_one urlparse strip net st
    = (Offshore.Continue,
       Offshore.mkServing c'
         (Offshore.dest_calls st
            ++ snd (Offshore.process_request urlparse strip net request_data)))
    /\ sent c' = sent (Offshore.conn st)
                 ++ wire 1 (fst (Offshore.process_request urlparse strip net
                                                          request_data))
    /\ closed c' = closed (Offshore.conn st)
    /\ sends_succeed c' = true
    /\ carries more rest c'.
Proof.
  intros Hne Hfit Hfit' Hs Hc.
  destruct (read_request_frame request_data more rest _ Hfit Hc)
    as (c1 & E1 & Hc1 & (S1 & P1 & X1 & _)).
  assert (Hs1 : sends_succeed c1 = true)
    by (unfold sends_succeed in *; congruence).
  unfold Offshore.serve_one. rewrite E1.
  destruct request_data as [|x d]; [done|]. cbn [is_empty].
  destruct (Offshore.process_request urlparse strip net (x :: d))
    as [response0 log] eqn:Ep.
  cbn [fst snd] in *.
  destruct (send_message_ok 1 response0 c1 Hs1 Hfit')
    as (c2 & E2 & S2 & C2 & I2 & X2 & O2); [lia|].
  rewrite E2. exists c2. split; [reflexivity|].
  split; [congruence|]. split; [congruence|]. split; [exact O2|].
  eapply carries_inbox; eassumption.
Qed.

(** C5.  A request whose request line parses to the method [CONNECT] is
    answered with exactly "HTTP/1.1 200 Connection Established\r\n\r\n" and
    without any call on a destination socket; the serving loop writes that
    answer as one type-1 frame and goes on with the connection open. *)
Theorem connect_gets_canned_reply
    (request_data url version more : bytes) (rest : list recv_event)
    (st : Offshore.serving) :
  decode_utf8 request_data = Ok request_data ->
  split [SP] (Some 2%nat) (hd [] (split CRLF None request_data))
    = [b "CONNECT"; url; version] ->
  fits32 request_data = true ->
  sends_succeed (Offshore.conn st) = true ->
  carries (wire 0 request_data ++ more) rest (Offshore.conn st) ->
  Offshore.process_request urlparse strip net request_data
    = (connection_established, [])
  /\ exists c',
       Offshore.serve_one urlparse strip net st
       = (Offshore.Continue, Offshore.mkServing c' (Offshore.dest_calls st))
       /\ sent c' = sent (Offshore.conn st) ++ wire 1 connection_established
       /\ closed c' = closed (Offshore.conn st)
       /\ carries more rest c'.
Proof.
  intros Hutf Hline Hfit Hs Hc.
  assert (Hp : Offshore.process_request urlparse strip net request_data
               = (connection_established, [])).
  { unfold Offshore.process_request. rewrite Hutf.
    destruct (split CRLF None request_data) as [|request_line lines].
    - discriminate Hline.
    - cbn [hd] in Hline. rewrite Hline. reflexivity. }
  split; [exact Hp|].
  destruct (serve_one_request request_data more rest st) as (c' & E & S & X & _ & C);
    try assumption.
  { intros ->. discriminate Hline. }
  { rewrite Hp. reflexivity. }
  rewrite Hp in E, S. cbn [fst snd] in E, S. rewrite app_nil_r in E.
  exists c'. done.
Qed.

End RemoteExecutor.

Lemma connect_gets_canned_reply_witness :
  let request_data :=
    Ship.build_request_string
      (Ship.mkRequestItem (b "CONNECT") (b "example.com:443")
                          [(b "Host", b "example.com:443")] [] false None None) in
  Offshore.process_request urlparse_sample strip_sample (fun _ _ => unreachable)
                           request_data
    = (connection_established, [])
  /\ exists c',
       Offshore.serve_one urlparse_sample strip_sample (fun _ _ => unreachable)
         (Offshore.mkServing (incoming [wire 0 request_data]) [])
       = (Offshore.Continue, Offshore.mkServing c' [])
       /\ sent c' = [] ++ wire 1 connection_established
       /\ closed c' = false
       /\ carries [] [] c'.
Proof.
  intros request_data.
  apply (connect_gets_canned_reply urlparse_sample strip_sample
           (fun _ _ => unreachable) request_data
           (b "example.com:443") (b "HTTP/1.1") [] []
           (Offshore.mkServing (incoming [wire 0 request_data]) []));
    try reflexivity.
  exists [wire 0 request_data]. repeat split; reflexivity.
Defined.

(** * Failures on the destination side *)

Section DestinationFailure.

Variable urlparse : str -> result Offshore.parsed_url.
Variable strip : str -> str.
Variable net : Offshore.network.

Lemma process_request_forward (request_data method url version : bytes) :
  decode_utf8 request_data = Ok request_data ->
  split [SP] (Some 2%nat) (hd [] (split CRLF None request_data))
    = [method; url; version] ->
  method <> b "CONNECT" ->
  Offshore.process_request urlparse strip net request_data
  = Offshore.handle_http_request urlparse strip net request_data url.
Proof.
  intros Hutf Hline Hm. unfold Offshore.process_request. rewrite Hutf.
  destruct (split CRLF None request_data) as [|request_line lines].
  - discriminate Hline.
  - cbn [hd] in Hline. rewrite Hline.
    rewrite bool_decide_eq_false_2 by exact Hm. reflexivity.
Qed.

Lemma handle_http_request_contact (request_str url host : str) (port0 : Z) :
  Offshore.resolve_target urlparse strip request_str url = Ok (Some host, port0) ->
  host <> [] ->
  Offshore.handle_http_request urlparse strip net request_str url
  = Offshore.contact net request_str host port0.
Proof.
  intros Hr Hh. unfold Offshore.handle_http_request. rewrite Hr.
  destruct host; [done|]. reflexivity.
Qed.

Lemma contact_refused (request_str host : str) (port0 : Z) e :
  Offshore.connect_raises (net host port0) = Some e ->
  Offshore.contact net request_str host port0
  = (Offshore.bad_gateway, [Offshore.DConnect host port0]).
Proof. intros H. unfold Offshore.contact. rewrite H. reflexivity. Qed.

Lemma contact_silent (request_str host : str) (port0 : Z) :
  silent (net host port0) ->
  Offshore.contact net request_str host port0
  = ([], [Offshore.DConnect host port0; Offshore.DSendAll request_str;
          Offshore.DClose]).
Proof.
  intros (Hc & Hs & msg & rest & Hin). unfold Offshore.contact. rewrite Hc.
  destruct (sendall_ok request_str _ Hs) as (s1 & E & _ & _ & I & _).
  rewrite E. unfold Offshore.recv_budget. cbn [Offshore.recv_response].
  unfold recv. rewrite I, Hin. reflexivity.
Qed.

(** C6 (as the code has it).  A request that is not a CONNECT and whose
    target resolves to [host] and [port0]:
    - if connecting to the destination raises (resolution or connect
      failure), the executor's answer is the synthesized 502 response;
    - if the destination accepts the request and the read timeout expires
      before any byte arrives, the answer is the empty byte string, not an
      error response;
    - in both cases the serving loop writes the answer as one type-1 frame
      and goes on with the upstream connection open.
    A request that does not decode as UTF-8 is answered with the
    synthesized 500 response. *)
Theorem destination_failure_is_answered
    (request_data method url version host garbled more : bytes) (port0 : Z)
    (rest : list recv_event) (st : Offshore.serving) :
  decode_utf8 request_data = Ok request_data ->
  split [SP] (Some 2%nat) (hd [] (split CRLF None request_data))
    = [method; url; version] ->
  method <> b "CONNECT" ->
  Offshore.resolve_target urlparse strip request_data url
    = Ok (Some host, port0) ->
  host <> [] ->
  fits32 request_data = true ->
  sends_succeed (Offshore.conn st) = true ->
  carries (wire 0 request_data ++ more) rest (Offshore.conn st) ->
  ((exists e, Offshore.connect_raises (net host port0) = Some e) ->
     Offshore.process_request urlparse strip net request_data
     = (Offshore.create_error_response 502 (b "Bad Gateway"),
        [Offshore.DConnect host port0]))
  /\ (silent (net host port0) ->
     Offshore.process_request urlparse strip net request_data
     = ([], [Offshore.DConnect host port0; Offshore.DSendAll request_data;
             Offshore.DClose]))
  /\ ((exists e, Offshore.connect_raises (net host port0) = Some e)
      \/ silent (net host port0) ->
     exists c',
       Offshore.serve_one urlparse strip net st
       = (Offshore.Continue,
          Offshore.mkServing c'
            (Offshore.dest_calls st
             ++ snd (Offshore.process_request urlparse strip net request_data)))
       /\ sent c'
          = sent (Offshore.conn st)
            ++ wire 1 (fst (Offshore.process_request urlparse strip net
                                                     request_data))
       /\ closed c' = closed (Offshore.conn st)
       /\ carries more rest c')
  /\ (decode_utf8 garbled <> Ok garbled ->
     Offshore.process_request urlparse strip net garbled
     = (Offshore.create_error_response 500 (b "Internal Server Error"), [])).
Proof.
  intros Hutf Hline Hm Hres Hh Hfit Hs Hc.
  pose proof (process_request_forward request_data method url version
                Hutf Hline Hm) as Hp.
  rewrite (handle_http_request_contact request_data url host port0 Hres Hh) in Hp.
  assert (H502 : (exists e, Offshore.connect_raises (net host port0) = Some e) ->
                 Offshore.process_request urlparse strip net request_data
                 = (Offshore.bad_gateway, [Offshore.DConnect host port0])).
  { intros [e He]. rewrite Hp. eapply contact_refused, He. }
  assert (Hmute : silent (net host port0) ->
                  Offshore.process_request urlparse strip net request_data
                  = ([], [Offshore.DConnect host port0;
                          Offshore.DSendAll request_data; Offshore.DClose])).
  { intros Hsil. rewrite Hp. apply contact_silent, Hsil. }
  split; [exact H502|]. split; [exact Hmute|]. split.
  - intros Hcase.
    destruct (serve_one_request urlparse strip net request_data more rest st)
      as (c' & E & S & X & _ & C); try assumption.
    { intros ->. discriminate Hline. }
    { destruct Hcase as [Hcase|Hcase].
      - rewrite (H502 Hcase). reflexivity.
      - rewrite (Hmute Hcase). reflexivity. }
    exists c'. done.
  - intros Hbad. unfold Offshore.process_request, decode_utf8 in *.
    destruct (utf8_go 0 128 191 garbled); [done|]. reflexivity.
Qed.

End DestinationFailure.

Lemma destination_failure_is_answered_witness :
  let request_data :=
    b "GET http://example.com/ HTTP/1.1" ++ CRLF
      ++ b "Host: example.com" ++ CRLF ++ CRLF in
  let st := Offshore.mkServing (incoming [wire 0 request_data]) [] in
  Offshore.process_request urlparse_sample strip_sample (fun _ _ => unreachable)
                           request_data
    = (Offshore.create_error_response 502 (b "Bad Gateway"),
       [Offshore.DConnect (b "example.com") 80])
  /\ (exists c',
       Offshore.serve_one urlparse_sample strip_sample (fun _ _ => unreachable) st
       = (Offshore.Continue,
          Offshore.mkServing c'
            ([] ++ snd (Offshore.process_request urlparse_sample strip_sample
                          (fun _ _ => unreachable) request_data)))
       /\ sent c'
          = [] ++ wire 1 (fst (Offshore.process_request urlparse_sample strip_sample
                                 (fun _ _ => unreachable) request_data))
       /\ closed c' = false
       /\ carries [] [] c')
  /\ Offshore.process_request urlparse_sample strip_sample (fun _ _ => mute)
                              request_data
     = ([], [Offshore.DConnect (b "example.com") 80;
             Offshore.DSendAll request_data; Offshore.DClose]).
Proof.
  intros request_data st.
  assert (Hc : carries (wire 0 request_data ++ []) [] (Offshore.conn st)).
  { exists [wire 0 request_data]. repeat split; reflexivity. }
  pose proof (destination_failure_is_answered urlparse_sample strip_sample
                (fun _ _ => unreachable) request_data
                (b "GET") (b "http://example.com/") (b "HTTP/1.1")
                (b "example.com") [xff] [] 80%Z [] st
                eq_refl eq_refl ltac:(discriminate) eq_refl ltac:(discriminate)
                eq_refl eq_refl Hc) as (H502 & _ & Hloop & _).
  pose proof (destination_failure_is_answered urlparse_sample strip_sample
                (fun _ _ => mute) request_data
                (b "GET") (b "http://example.com/") (b "HTTP/1.1")
                (b "example.com") [xff] [] 80%Z [] st
                eq_refl eq_refl ltac:(discriminate) eq_refl ltac:(discriminate)
                eq_refl eq_refl Hc) as (_ & Hmute & _ & _).
  split; [|split].
  - apply H502. eexists. reflexivity.
  - apply Hloop. left. eexists. reflexivity.
  - apply Hmute. split; [reflexivity|]. split; [reflexivity|].
    eexists _, _. reflexivity.
Defined.

(** C6 as stated fails for the read timeout: when the destination accepts
    the request and sends nothing before the timeout, the executor's answer
    is the empty byte string, which is neither the 502 nor the 500 response,
    and the frame written upstream is the five-byte header of an empty
    type-1 message. *)
Lemma read_timeout_gives_empty_answer :
  let request_data :=
    b "GET http://example.com/ HTTP/1.1" ++ CRLF
      ++ b "Host: example.com" ++ CRLF ++ CRLF in
  let served :=
    Offshore.serve_one urlparse_sample strip_sample (fun _ _ => mute)
      (Offshore.mkServing (incoming [wire 0 request_data]) []) in
  Offshore.process_request urlparse_sample strip_sample (fun _ _ => mute)
                           request_data
    = ([], [Offshore.DConnect (b "example.com") 80;
            Offshore.DSendAll request_data; Offshore.DClose])
  /\ [] <> Offshore.create_error_response 502 (b "Bad Gateway")
  /\ [] <> Offshore.create_error_response 500 (b "Internal Server Error")
  /\ fst served = Offshore.Continue
  /\ sent (Offshore.conn (snd served)) = [x00; x00; x00; x00; x01].
Proof.
  cbv zeta. split; [vm_compute; reflexivity|].
  split; [discriminate|]. split; [discriminate|].
  split; vm_compute; reflexivity.
Qed.

(** * Serialization of a pending request *)

Section Serialization.

Lemma foldl_header_lines (hs : dict) (acc : str) :
  foldl (fun acc hv => acc ++ (fst hv ++ b ": " ++ snd hv ++ CRLF)) acc hs
  = acc ++ concat (map header_line hs).
Proof.
  revert acc. induction hs as [|hv hs IH]; intros acc; cbn [foldl map concat].
  - symmetry. apply app_nil_r.
  - rewrite IH, <- app_assoc. reflexivity.
Qed.

Lemma build_request_string_canonical (it : Ship.RequestItem) :
  Ship.build_request_string it
  = canonical_request (Ship.method it) (Ship.url it)
                      (Ship.headers it) (Ship.body it).
Proof.
  unfold Ship.build_request_string, canonical_request.
  rewrite foldl_header_lines.
  destruct (Ship.body it) as [|c bd]; cbn [is_empty];
    rewrite <- ?app_assoc; cbn [app]; rewrite ?app_nil_r; reflexivity.
Qed.

(** Reading never changes what has been written. *)
Lemma recv_sent (n : nat) (s : socket) : sent (snd (recv n s)) = sent s.
Proof.
  unfold recv. destruct (inbox s) as [|[d|cls msg] rest]; reflexivity.
Qed.

Lemma recv_all_loop_sent (fuel n : nat) :
  forall (data0 : bytes) (s : socket),
    sent (snd (recv_all_loop fuel n data0 s)) = sent s.
Proof.
  induction fuel as [|fuel IH]; intros data0 s; cbn [recv_all_loop];
    destruct (length data0 <? n)%nat; try reflexivity.
  unfold bind. pose proof (recv_sent (n - length data0) s) as Hr.
  destruct (recv (n - length data0) s) as [[chunk|cls msg] s1]; cbn in Hr |- *;
    [|exact Hr].
  destruct (is_empty chunk); [exact Hr|]. rewrite IH. exact Hr.
Qed.

Lemma read_response_sent (s : socket) :
  sent (snd (Ship.read_response s)) = sent s.
Proof.
  unfold Ship.read_response, bind, _recv_all.
  pose proof (recv_all_loop_sent (N.to_nat 5) (N.to_nat 5) [] s) as H1.
  destruct (recv_all_loop (N.to_nat 5) (N.to_nat 5) [] s) as [[h|cls msg] s1];
    cbn [snd] in H1 |- *; try exact H1.
  destruct (Ship.falsy h); [exact H1|].
  destruct (default [] h !! 4%nat) as [t|]; [|exact H1].
  destruct (negb _); [exact H1|].
  set (n := N.to_nat (unpack_be32 (take 4 (default [] h)))).
  pose proof (recv_all_loop_sent n n [] s1) as H2.
  destruct (recv_all_loop n n [] s1) as [[r|cls msg] s2]; cbn [snd] in H2 |- *;
    [|congruence].
  destruct (Ship.falsy r); cbn; congruence.
Qed.

(** What the pump writes for a request, whatever comes back. *)
Lemma exchange_sent (q : bytes) (s : socket) :
  sends_succeed s = true -> fits32 q = true ->
  sent (snd (Ship.exchange q s)) = sent s ++ wire 0 q.
Proof.
  intros Hs Hq.
  destruct (send_message_ok 0 q s Hs Hq) as (s1 & E1 & S1 & _); [lia|].
  unfold Ship.exchange, bind. rewrite E1.
  pose proof (read_response_sent s1) as H.
  destruct (Ship.read_response s1) as [[r|cls msg] s2]; cbn [snd] in H |- *;
    congruence.
Qed.

(** *** [dict(self.headers)] *)

Lemma dict_set_keys (k v : str) (d : dict) :
  map fst (dict_set k v d)
  = if bool_decide (k ∈ map fst d) then map fst d else map fst d ++ [k].
Proof.
  induction d as [|[k' v'] d IH]; cbn [dict_set map fst].
  - rewrite bool_decide_eq_false_2 by apply not_elem_of_nil. reflexivity.
  - destruct (decide (k = k')) as [->|Hne].
    + rewrite bool_decide_eq_true_2 by reflexivity.
      rewrite bool_decide_eq_true_2 by apply list_elem_of_here. reflexivity.
    + rewrite (bool_decide_eq_false_2 (k = k')) by exact Hne.
      cbn [map fst]. rewrite IH.
      destruct (decide (k ∈ map fst d)) as [Hin|Hnin].
      * rewrite !bool_decide_eq_true_2; [reflexivity| |exact Hin].
        apply list_elem_of_further, Hin.
      * rewrite !bool_decide_eq_false_2; [reflexivity| |exact Hnin].
        intros [?|?]%elem_of_cons; done.
Qed.

Lemma dict_set_elem (k v k1 v1 : str) (d : dict) :
  (k1, v1) ∈ dict_set k v d -> (k1, v1) ∈ d \/ (k1 = k /\ v1 = v).
Proof.
  induction d as [|[k' v'] d IH]; cbn [dict_set].
  - intros [[= -> ->]|[]%elem_of_nil]%elem_of_cons. right. done.
  - destruct (bool_decide (k = k')) eqn:E.
    + apply bool_decide_eq_true in E as ->.
      intros [[= -> ->]|H]%elem_of_cons; [right; done|].
      left. apply list_elem_of_further, H.
    + intros [[= -> ->]|H]%elem_of_cons; [left; apply list_elem_of_here|].
      destruct (IH H) as [H'|H']; [left; apply list_elem_of_further, H'|right; exact H'].
Qed.

Lemma message_getitem_key (k : str) (m : message) :
  k ∈ message_keys m -> exists v, message_getitem k m = Some v.
Proof.
  unfold message_keys. induction m as [|[k' v'] m IH]; cbn [map fst message_getitem].
  - intros []%elem_of_nil.
  - intros [->|H]%elem_of_cons.
    + rewrite bool_decide_eq_true_2 by reflexivity. eauto.
    + destruct (bool_decide (lower k' = lower k)); eauto.
Qed.

(** The invariant of the loop behind [dict(msg)]. *)
Lemma dict_of_message_loop (m : message) (ks : list str) :
  forall d : dict,
    (forall k, k ∈ ks -> k ∈ message_keys m) ->
    NoDup (map fst d) ->
    (forall k v, (k, v) ∈ d -> message_getitem k m = Some v) ->
    let d' := foldl (fun d k => match message_getitem k m with
                                | Some v => dict_set k v d
                                | None => d
                                end) d ks in
    NoDup (map fst d')
    /\ (forall k v, (k, v) ∈ d' -> message_getitem k m = Some v)
    /\ (forall k, k ∈ map fst d \/ k ∈ ks -> k ∈ map fst d').
Proof.
  induction ks as [|k ks IH]; intros d Hks Hnd Hval; cbn [foldl].
  - split; [exact Hnd|]. split; [exact Hval|].
    intros k [H|[]%elem_of_nil]. exact H.
  - destruct (message_getitem_key k m) as [v Hv];
      [apply Hks, list_elem_of_here|].
    rewrite Hv.
    assert (Hkeys := dict_set_keys k v d).
    destruct (IH (dict_set k v d)) as (N & V & K).
    + intros k0 H0. apply Hks, list_elem_of_further, H0.
    + rewrite Hkeys. destruct (bool_decide (k ∈ map fst d)) eqn:E; [exact Hnd|].
      apply bool_decide_eq_false in E.
      apply list.NoDup_app. split; [exact Hnd|]. split.
      * intros x Hx [->|[]%elem_of_nil]%elem_of_cons. done.
      * apply NoDup_singleton.
    + intros k1 v1 H1. destruct (dict_set_elem _ _ _ _ _ H1) as [H|[-> ->]];
        [apply Hval, H | exact Hv].
    + split; [exact N|]. split; [exact V|].
      intros k0 H0. apply K. rewrite Hkeys.
      destruct (bool_decide (k ∈ map fst d)) eqn:E.
      * apply bool_decide_eq_true in E.
        destruct H0 as [H0|[->|H0]%elem_of_cons]; auto.
      * destruct H0 as [H0|[->|H0]%elem_of_cons]; auto.
        -- left. apply elem_of_app. auto.
        -- left. apply elem_of_app. right. apply list_elem_of_here.
Qed.

Lemma dict_of_message_spec (m : message) :
  NoDup (map fst (dict_of_message m))
  /\ (forall k v, (k, v) ∈ dict_of_message m -> message_getitem k m = Some v)
  /\ (forall k, k ∈ message_keys m -> k ∈ map fst (dict_of_message m)).
Proof.
  destruct (dict_of_message_loop m (message_keys m) []) as (N & V & K).
  - auto.
  - apply NoDup_nil_2.
  - intros k v []%elem_of_nil.
  - split; [exact N|]. split; [exact V|]. intros k H. apply K. auto.
Qed.

End Serialization.

(** C8 (as the code has it).  The pump serializes the item it dequeues as
    request line, one [name: value] line per header in the order of the
    item's header dictionary, a blank line and the body, all lines ending in
    CR LF, and writes it as one type-0 frame.  The header dictionary a
    handler stores is [dict(self.headers)]: every header name of the client's
    request is a key, no key occurs twice, and the value of a key is that of
    the first field of the request with that name (case ignored). *)
Theorem pending_request_serialization
    (s : Ship.ShipProxy) (i : nat) (q : list nat) (it : Ship.RequestItem)
    (py_int : str -> result Z) (method0 : str) (c : Ship.client)
    (s0 s1 : Ship.ShipProxy) (j : nat) :
  Ship.request_queue s = i :: q ->
  Ship.heap s !! i = Some it ->
  Ship.connected s = true ->
  sends_succeed (Ship.tcp_sock s) = true ->
  fits32 (Ship.build_request_string it) = true ->
  Ship.handle_request_enqueue py_int method0 c s0 = (Ok j, s1) ->
  (Ship.build_request_string it
   = canonical_request (Ship.method it) (Ship.url it)
                       (Ship.headers it) (Ship.body it)
   /\ sent (Ship.tcp_sock (Ship.process_requests_body s))
      = sent (Ship.tcp_sock s)
        ++ wire 0 (canonical_request (Ship.method it) (Ship.url it)
                                     (Ship.headers it) (Ship.body it)))
  /\ exists it0,
       Ship.heap s1 !! j = Some it0
       /\ Ship.request_queue s1 = Ship.request_queue s0 ++ [j]
       /\ Ship.method it0 = method0 /\ Ship.url it0 = Ship.path c
       /\ Ship.headers it0 = dict_of_message (Ship.client_headers c)
       /\ NoDup (map fst (Ship.headers it0))
       /\ (forall k v, (k, v) ∈ Ship.headers it0 ->
                       message_getitem k (Ship.client_headers c) = Some v)
       /\ (forall k, k ∈ message_keys (Ship.client_headers c) ->
                     k ∈ map fst (Ship.headers it0)).
Proof.
  intros Hq Hh Hconn Hs Hfit Henq. split.
  - pose proof (build_request_string_canonical it) as Hb.
    split; [exact Hb|]. rewrite <- Hb.
    rewrite (process_requests_body_connected s i q it Hq Hh Hconn).
    pose proof (exchange_sent (Ship.build_request_string it) _ Hs Hfit) as He.
    destruct (Ship.exchange (Ship.build_request_string it) (Ship.tcp_sock s))
      as [r sock']. exact He.
  - unfold Ship.handle_request_enqueue in Henq.
    destruct (match dict_get (b "Content-Length")
                              (dict_of_message (Ship.client_headers c)) with
              | Some v => _ | None => _ end) as [body1|cls msg];
      [|discriminate Henq].
    unfold Ship.queue_request in Henq. injection Henq as <- <-.
    eexists. cbn [Ship.heap Ship.request_queue].
    split; [apply list_lookup_middle; reflexivity|].
    split; [reflexivity|]. cbn.
    split; [reflexivity|]. split; [reflexivity|]. split; [reflexivity|].
    apply dict_of_message_spec.
Qed.

Lemma pending_request_serialization_witness :
  let c := Ship.mkClient (b "http://example.com/")
             [(b "Host", b "example.com"); (b "Accept", b "*/*")] [] in
  let py_int := fun _ : str => @Raise Z ValueErrorCls (b "invalid literal") in
  let s0 := Ship.started (incoming []) in
  let s1 := snd (Ship.handle_request_enqueue py_int (b "GET") c s0) in
  let it := Ship.mkRequestItem (b "GET") (b "http://example.com/")
              [(b "Host", b "example.com"); (b "Accept", b "*/*")] []
              false None None in
  sent (Ship.tcp_sock (Ship.process_requests_body s1))
  = sent (Ship.tcp_sock s1)
    ++ wire 0 (canonical_request (b "GET") (b "http://example.com/")
                 [(b "Host", b "example.com"); (b "Accept", b "*/*")] []).
Proof.
  intros c py_int s0 s1 it.
  refine (proj2 (proj1 (pending_request_serialization s1 0 [] it py_int
                          (b "GET") c s0 s1 0 _ _ _ _ _ _)));
    reflexivity.
Defined.

(** C8 as stated fails on repeated header names: the client sends [Accept]
    twice, the pending request holds it once, with the first value, and the
    serialized request is not the canonical text of the client's header
    list. *)
Lemma repeated_header_is_sent_once :
  let c := Ship.mkClient (b "/index.html")
             [(b "Accept", b "text/html"); (b "Host", b "example.com");
              (b "Accept", b "image/png")] [] in
  let py_int := fun _ : str => @Raise Z ValueErrorCls (b "invalid literal") in
  let s1 := snd (Ship.handle_request_enqueue py_int (b "GET") c
                   (Ship.started (incoming []))) in
  (Ship.headers <$> Ship.heap s1 !! 0%nat)
    = Some [(b "Accept", b "text/html"); (b "Host", b "example.com")]
  /\ (Ship.build_request_string <$> Ship.heap s1 !! 0%nat)
     = Some (b "GET /index.html HTTP/1.1" ++ CRLF
               ++ b "Accept: text/html" ++ CRLF
               ++ b "Host: example.com" ++ CRLF ++ CRLF)
  /\ (Ship.build_request_string <$> Ship.heap s1 !! 0%nat)
     <> Some (canonical_request (b "GET") (b "/index.html")
                                (Ship.client_headers c) []).
Proof.
  cbv zeta. split; [vm_compute; reflexivity|].
  split; [vm_compute; reflexivity|]. vm_compute. discriminate.
Qed.

(** * Messages of an unexpected type *)

(** The offshore reader on a frame whose type is not 0: the five header
    bytes are consumed, the declared payload is left on the connection and
    will be read as the next header. *)
Lemma read_request_other_type
    (t : N) (payload more : bytes) (rest : list recv_event) (s : socket) :
  t <> 0 -> t < 256 ->
  carries (wire t payload ++ more) rest s ->
  exists s', Offshore.read_request s = (Ok (inl Offshore.Continue), s')
             /\ carries (payload ++ more) rest s'.
Proof.
  intros Ht0 Ht Hc.
  destruct (recv_header t payload more rest s Hc) as (s1 & H1 & Hc1 & _).
  exists s1. split; [|exact Hc1].
  unfold Offshore.read_request, bind. rewrite H1.
  change (Ship.falsy (Some (header_of t payload))) with false. cbv iota.
  cbn [default from_option id].
  destruct (header_type t payload Ht) as [-> ->].
  apply N.eqb_neq in Ht0. rewrite Ht0. reflexivity.
Qed.

(** C4, the code at a failing input.  A type-2 message with the five-byte
    payload 00 00 00 00 00 is followed by a well-formed CONNECT request.
    The loop skips the header of the type-2 message only, reads its payload
    as the header of an empty type-0 message, leaves the loop and closes the
    connection: nothing is ever written back.  The same request after a
    type-2 message without payload is answered. *)
Theorem unknown_type_payload_is_not_skipped :
  let request_data := b "CONNECT example.com:443 HTTP/1.1" ++ CRLF ++ CRLF in
  let serve := Offshore.handle_ship_connection urlparse_sample strip_sample
                 (fun _ _ => unreachable) in
  (exists st,
     serve (incoming [wire 2 [x00; x00; x00; x00; x00] ++ wire 0 request_data])
       = Some st
     /\ closed (Offshore.conn st) = true
     /\ sent (Offshore.conn st) = []
     /\ inbox (Offshore.conn st) = [Chunk (wire 0 request_data)])
  /\ (exists st,
     serve (incoming [wire 2 [] ++ wire 0 request_data]) = Some st
     /\ sent (Offshore.conn st) = wire 1 connection_established).
Proof.
  cbv zeta. split; eexists; (split; [vm_compute; reflexivity|]);
    repeat split; reflexivity.
Qed.

(** * A broken upstream connection *)

(** Nothing in the pump or in [queue_request] ever clears [connected]. *)
Lemma connected_is_never_cleared (acts : list action) (s : Ship.ShipProxy) :
  Ship.connected (run acts s) = Ship.connected s.
Proof.
  unfold run. revert s. induction acts as [|a acts IH]; intros s; [reflexivity|].
  cbn [foldl]. rewrite IH. destruct a as [m u h bd|]; [reflexivity|].
  unfold step, Ship.process_requests_body.
  destruct (Ship.request_queue s) as [|i q]; [reflexivity|].
  destruct (Ship.heap s !! i) as [it|]; [|reflexivity].
  destruct (Ship.connected s) eqn:E; cbn [negb]; [|reflexivity].
  destruct (Ship.exchange _ _) as [r sock']. reflexivity.
Qed.

(** C3, the code at a failing input.  The peer has closed the connection
    ([recv] returns the empty byte string) while request A is in flight and
    request B is queued.  A gets the error of the failed read, but the pump
    is still marked connected, and B is not failed with "No connection to
    offshore proxy": it is framed and written to the dead connection like
    any request, and fails on its own read. *)
Theorem broken_connection_is_not_recorded :
  let s := run [Submit (b "GET") (b "http://a.example/") [] [];
                Submit (b "GET") (b "http://b.example/") [] [];
                Pump; Pump]
               (Ship.started (incoming [])) in
  Ship.connected s = true
  /\ (Ship.error <$> Ship.heap s !! 0%nat)
     = Some (Some (b "Failed to read response header"))
  /\ (Ship.error <$> Ship.heap s !! 1%nat)
     = Some (Some (b "Failed to read response header"))
  /\ (Ship.error <$> Ship.heap s !! 1%nat)
     <> Some (Some (b "No connection to offshore proxy"))
  /\ sent (Ship.tcp_sock s)
     = wire 0 (b "GET http://a.example/ HTTP/1.1" ++ CRLF ++ CRLF)
       ++ wire 0 (b "GET http://b.example/ HTTP/1.1" ++ CRLF ++ CRLF).
Proof.
  cbv zeta. repeat split; try (vm_compute; reflexivity).
  vm_compute. discriminate.
Qed.

(** * The pump: order, correlation, one exchange at a time *)

Section Pump.

Variable resps : list bytes.
Variable rest : list recv_event.
Variable sock0 : socket.

Hypothesis resps_fit : forallb fits32 resps = true.
Hypothesis fresh_log : calls sock0 = [].
Hypothesis healthy : sends_succeed sock0 = true.
Hypothesis answers : carries (concat (map (wire 1) resps)) rest sock0.

Lemma forallb_lookup {A} (f : A -> bool) (l : list A) (i : nat) (x : A) :
  forallb f l = true -> l !! i = Some x -> f x = true.
Proof.
  revert i. induction l as [|y l IH]; intros i Hf Hl; [discriminate Hl|].
  cbn in Hf. apply andb_true_iff in Hf as [Hy Hf].
  destruct i as [|i]; cbn in Hl; [congruence|]. eapply IH; eassumption.
Qed.

Lemma log_recv_pieces (q r : bytes) (acc : list (bytes * bytes))
      (pieces : list bytes) :
  foldl log_step ((q, r) :: acc) (map CallRecv pieces)
  = (q, r ++ concat pieces) :: acc.
Proof.
  revert r. induction pieces as [|p pieces IH]; intros r; cbn [map foldl concat].
  - rewrite app_nil_r. reflexivity.
  - cbn [log_step]. rewrite IH, <- app_assoc. reflexivity.
Qed.

Lemma pump_invariant_start :
  pump_invariant resps rest sock0 [] 0 (Ship.started sock0).
Proof.
  unfold pump_invariant, Ship.started. cbn.
  rewrite fresh_log. repeat split; try done.
  symmetry. apply app_nil_r.
Qed.

Lemma pump_invariant_length (reqs : list Ship.RequestItem) (k : nat)
      (s : Ship.ShipProxy) :
  (length reqs <= length resps)%nat ->
  pump_invariant resps rest sock0 reqs k s ->
  length (Ship.heap s) = length reqs.
Proof.
  intros Hl (Hk & _ & _ & Hh & _). rewrite Hh.
  rewrite length_app, length_zip_with, !length_take, length_drop. lia.
Qed.

Lemma pump_invariant_submit (reqs : list Ship.RequestItem) (k : nat)
      (s : Ship.ShipProxy) (m u : str) (h : dict) (bd : str) :
  (length reqs <= length resps)%nat ->
  pump_invariant resps rest sock0 reqs k s ->
  pump_invariant resps rest sock0
    (reqs ++ [Ship.mkRequestItem m u h bd false None None]) k
    (step s (Submit m u h bd)).
Proof.
  intros Hl Hinv. pose proof (pump_invariant_length reqs k s Hl Hinv) as Hlen.
  destruct Hinv as (Hk & Hc & Hq & Hh & Hs & Hlog & Hok & Hcar).
  unfold pump_invariant, step, Ship.queue_request. cbn.
  rewrite length_app. cbn [length].
  rewrite (take_app_le reqs _ k Hk), (drop_app_le reqs _ k Hk).
  split; [lia|]. split; [exact Hc|]. split.
  { rewrite Hq, Hlen.
    replace (length reqs + 1 - k)%nat with (S (length reqs - k)) by lia.
    rewrite seq_S. do 3 f_equal. lia. }
  split; [rewrite Hh, app_assoc; reflexivity|].
  done.
Qed.

Lemma pump_invariant_pump (reqs : list Ship.RequestItem) (k : nat)
      (s : Ship.ShipProxy) :
  forallb request_fits reqs = true ->
  (length reqs <= length resps)%nat ->
  pump_invariant resps rest sock0 reqs k s ->
  exists k', pump_invariant resps rest sock0 reqs k' (step s Pump).
Proof.
  intros Hfit Hl Hinv.
  destruct Hinv as (Hk & Hc & Hq & Hh & Hs & Hlog & Hok & Hcar).
  destruct (decide (k = length reqs)) as [->|Hne].
  { exists (length reqs). unfold step, Ship.process_requests_body.
    rewrite Nat.sub_diag in Hq. rewrite Hq.
    unfold pump_invariant. rewrite Nat.sub_diag. done. }
  assert (Hlt : (k < length reqs)%nat) by lia.
  destruct (lookup_lt_is_Some_2 reqs k Hlt) as [it Hit].
  destruct (lookup_lt_is_Some_2 resps k) as [r Hr]; [lia|].
  pose proof (forallb_lookup _ _ _ _ Hfit Hit) as Hitfit.
  pose proof (forallb_lookup _ _ _ _ resps_fit Hr) as Hrfit.
  set (done_items := zip_with completed (take k resps) (take k reqs)) in *.
  assert (Hdl : length done_items = k).
  { unfold done_items. rewrite length_zip_with, !length_take. lia. }
  assert (Hheap : Ship.heap s !! k = Some it).
  { rewrite Hh, lookup_app_r by lia. rewrite Hdl, Nat.sub_diag, lookup_drop.
    rewrite Nat.add_0_r. exact Hit. }
  assert (Hqueue : Ship.request_queue s = k :: seq (S k) (length reqs - S k)).
  { rewrite Hq. replace (length reqs - k)%nat with (S (length reqs - S k)) by lia.
    reflexivity. }
  rewrite (drop_S resps r k Hr) in Hcar. cbn [map concat] in Hcar.
  destruct (exchange_frame (Ship.build_request_string it) r _ rest
              (Ship.tcp_sock s) Hok Hitfit Hrfit Hcar)
    as (sock' & E & Hcar' & Hok' & Hsent' & _ & pieces & Hcalls & Hpieces).
  exists (S k). unfold step.
  rewrite (process_requests_body_connected s k _ it Hqueue Hheap Hc), E.
  unfold pump_invariant.
  cbn [Ship.connected Ship.request_queue Ship.heap Ship.tcp_sock].
  rewrite (take_S_r reqs k it Hit), (take_S_r resps k r Hr).
  split; [lia|]. split; [exact Hc|]. split; [reflexivity|]. split.
  { rewrite Hh, insert_app_r_alt by lia.
    rewrite Hdl, Nat.sub_diag, (drop_S reqs it k Hit). cbn [insert list_insert].
    rewrite zip_with_app by (rewrite !length_take; lia).
    fold done_items. rewrite <- app_assoc. cbn [zip_with app].
    do 2 f_equal. unfold completed. destruct r; reflexivity. }
  split.
  { rewrite Hsent', Hs, map_app, concat_app. cbn [map concat].
    rewrite app_nil_r, app_assoc. reflexivity. }
  split.
  { rewrite Hcalls, foldl_app, Hlog. cbn [foldl log_step].
    rewrite log_recv_pieces, Hpieces, !map_app. cbn [map app].
    rewrite (zip_with_app pair) by (rewrite !length_map, !length_take; lia).
    cbn [zip_with]. rewrite reverse_snoc. reflexivity. }
  split; [exact Hok'|exact Hcar'].
Qed.

Lemma pump_invariant_run (acts : list action) :
  forallb request_fits (submitted acts) = true ->
  (length (submitted acts) <= length resps)%nat ->
  exists k, pump_invariant resps rest sock0 (submitted acts) k
                           (run acts (Ship.started sock0)).
Proof.
  induction acts as [|a acts IH] using rev_ind; intros Hfit Hl.
  - exists O. apply pump_invariant_start.
  - unfold submitted in Hfit, Hl. rewrite omap_app in Hfit, Hl.
    fold (submitted acts) in Hfit, Hl.
    rewrite forallb_app in Hfit. apply andb_true_iff in Hfit as [Hfit Hfa].
    rewrite length_app in Hl.
    destruct IH as [k Hinv]; [exact Hfit | lia |].
    unfold run. rewrite foldl_app. cbn [foldl]. fold (run acts (Ship.started sock0)).
    unfold submitted at 1. rewrite omap_app. fold (submitted acts).
    destruct a as [m u h bd|].
    + exists k. cbn [omap]. apply pump_invariant_submit; [lia | exact Hinv].
    + cbn [omap]. rewrite app_nil_r.
      apply (pump_invariant_pump _ k); [exact Hfit | cbn in Hl; lia | exact Hinv].
Qed.

End Pump.

Lemma submitted_fresh (acts : list action) (n : nat) (it : Ship.RequestItem) :
  submitted acts !! n = Some it ->
  Ship.response_event it = false /\ Ship.response it = None
  /\ Ship.error it = None.
Proof.
  unfold submitted. revert n.
  induction acts as [|a acts IH]; intros n; cbn [omap]; [discriminate|].
  destruct a as [m u h bd|]; [|apply IH].
  destruct n as [|n]; cbn; [intros [= <-]; done | apply IH].
Qed.

Lemma request_frame_canonical (it : Ship.RequestItem) :
  request_frame it = canonical_frame it.
Proof.
  unfold request_frame, canonical_frame.
  rewrite build_request_string_canonical. reflexivity.
Qed.

(** X28.  Clients enqueue requests and the pump takes
    its turns in any interleaving [acts], on a connection on which no write
    fails and whose peer answers the n-th request it receives with exactly
    one type-1 frame carrying [resps !! n], delivered in chunks of any size.
    Whatever the interleaving, with [k] the number of requests the pump has
    dequeued:
    - the queue holds the remaining requests in enqueue order;
    - the bytes written upstream are the type-0 frames of the canonical
      texts of the first [k] requests, in enqueue order;
    - the call log of the connection is a sequence of [k] exchanges, the
      n-th being the write of the n-th request's frame followed by reads
      that return exactly the n-th response frame: no request is written
      before the response to the previous one has been read in full;
    - for every n below [k], the n-th item enqueued is signalled and its
      [response] is the payload of the n-th response frame and its [error]
      is unset (for an empty payload: no response and the error "Failed to
      read response data"), its request unchanged;
    - every other item is as it was enqueued: not signalled, no response,
      no error. *)
Theorem pump_is_fifo_and_single_in_flight
    (acts : list action) (resps : list bytes) (rest : list recv_event)
    (sock0 : socket) :
  forallb fits32 resps = true ->
  calls sock0 = [] ->
  sends_succeed sock0 = true ->
  carries (concat (map (wire 1) resps)) rest sock0 ->
  forallb request_fits (submitted acts) = true ->
  (length (submitted acts) <= length resps)%nat ->
  let reqs := submitted acts in
  let s := run acts (Ship.started sock0) in
  let k := (length reqs - length (Ship.request_queue s))%nat in
  Ship.request_queue s = seq k (length reqs - k)
  /\ sent (Ship.tcp_sock s)
     = sent sock0 ++ concat (map canonical_frame (take k reqs))
  /\ exchanges (calls (Ship.tcp_sock s))
     = zip (map canonical_frame (take k reqs)) (map (wire 1) (take k resps))
  /\ length (Ship.heap s) = length reqs
  /\ (forall n it r,
        (n < k)%nat -> reqs !! n = Some it -> resps !! n = Some r ->
        exists it',
          Ship.heap s !! n = Some it'
          /\ Ship.response_event it' = true
          /\ Ship.response it' = (if is_empty r then None else Some r)
          /\ Ship.error it'
             = (if is_empty r then Some (b "Failed to read response data")
                else None)
          /\ Ship.method it' = Ship.method it /\ Ship.url it' = Ship.url it
          /\ Ship.headers it' = Ship.headers it /\ Ship.body it' = Ship.body it)
  /\ (forall n it,
        (k <= n)%nat -> reqs !! n = Some it ->
        Ship.heap s !! n = Some it
        /\ Ship.response_event it = false /\ Ship.response it = None
        /\ Ship.error it = None).
Proof.
  intros Hrf Hlog Hok Hcar Hqf Hl reqs s k.
  destruct (pump_invariant_run resps rest sock0 Hrf Hlog Hok Hcar acts Hqf Hl)
    as (k' & Hinv).
  pose proof (pump_invariant_length resps rest sock0 _ _ _ Hl Hinv) as Hlen.
  destruct Hinv as (Hk & _ & Hq & Hh & Hs & Hlg & _).
  fold reqs s in Hk, Hq, Hh, Hs, Hlg, Hlen.
  assert (k = k') as ->.
  { unfold k. rewrite Hq, length_seq. lia. }
  assert (Hframes : map request_frame (take k' reqs)
                    = map canonical_frame (take k' reqs)).
  { apply map_ext. intros it. apply request_frame_canonical. }
  rewrite Hframes in Hs, Hlg.
  assert (Hdl : length (zip_with completed (take k' resps) (take k' reqs)) = k').
  { rewrite length_zip_with, !length_take. fold reqs in Hl. lia. }
  split; [exact Hq|]. split; [exact Hs|].
  split; [unfold exchanges; rewrite Hlg; apply reverse_involutive|].
  split; [exact Hlen|]. split.
  - intros n it r Hn Hit Hr.
    destruct (submitted_fresh acts n it Hit) as (Fe & Fr & Fx).
    exists (completed r it). split.
    + rewrite Hh, lookup_app_l by lia.
      rewrite lookup_zip_with, !lookup_take_lt by lia.
      rewrite Hr, Hit. reflexivity.
    + unfold completed. destruct r; cbn; rewrite ?Fr, ?Fx; done.
  - intros n it Hn Hit. split; [|apply (submitted_fresh acts n it Hit)].
    rewrite Hh, lookup_app_r by lia. rewrite Hdl, lookup_drop.
    replace (k' + (n - k'))%nat with n by lia. exact Hit.
Qed.

Lemma pump_is_fifo_and_single_in_flight_witness :
  let acts := [Submit (b "GET") (b "http://a.example/") [] [];
               Pump;
               Submit (b "POST") (b "http://b.example/")
                      [(b "Content-Length", b "2")] (b "hi");
               Submit (b "GET") (b "http://c.example/") [] [];
               Pump] in
  let resps := [b "HTTP/1.1 200 OK"; b "HTTP/1.1 404 Not Found";
                b "HTTP/1.1 204 No Content"] in
  let stream := concat (map (wire 1) resps) in
  let sock0 := incoming [take 3 stream; drop 3 (take 30 stream); drop 30 stream] in
  let reqs := submitted acts in
  let s := run acts (Ship.started sock0) in
  Ship.request_queue s = [2%nat]
  /\ sent (Ship.tcp_sock s) = concat (map canonical_frame (take 2 reqs))
  /\ exchanges (calls (Ship.tcp_sock s))
     = zip (map canonical_frame (take 2 reqs)) (map (wire 1) (take 2 resps))
  /\ (Ship.response <$> Ship.heap s !! 0%nat)
     = Some (Some (b "HTTP/1.1 200 OK"))
  /\ (Ship.response <$> Ship.heap s !! 1%nat)
     = Some (Some (b "HTTP/1.1 404 Not Found"))
  /\ (Ship.response <$> Ship.heap s !! 2%nat) = Some None.
Proof.
  intros acts resps stream sock0 reqs s.
  assert (Hcar : carries (concat (map (wire 1) resps)) [] sock0).
  { exists [take 3 stream; drop 3 (take 30 stream); drop 30 stream].
    repeat split; reflexivity. }
  destruct (pump_is_fifo_and_single_in_flight acts resps [] sock0
              eq_refl eq_refl eq_refl Hcar eq_refl ltac:(cbn; lia))
    as (Hq & Hs & Hx & _ & Hdone & Hrest).
  split; [exact Hq|]. split; [exact Hs|]. split; [exact Hx|].
  destruct (Hdone 0%nat _ _ ltac:(vm_compute; lia) eq_refl eq_refl)
    as (it0 & E0 & _ & R0 & _).
  destruct (Hdone 1%nat _ _ ltac:(vm_compute; lia) eq_refl eq_refl)
    as (it1 & E1 & _ & R1 & _).
  destruct (Hrest 2%nat _ ltac:(vm_compute; lia) eq_refl) as (E2 & _ & R2 & _).
  fold s in E0, E1, E2. rewrite E0, E1, E2. cbn [fmap option_fmap option_map].
  rewrite R0, R1, R2. repeat split; reflexivity.
Defined.

(** C1, the code at a failing input.  The pump goes on using the connection
    after an exchange on it has failed.  When the peer closes in the middle
    of the answer to A, the frame of B is written although that answer was
    never read in full.  When a frame of type 2 with the payload
    00 00 00 00 01 comes before the answers, request A fails on the type,
    the payload left unread on the connection is taken for the header of an
    empty response to B, and the answer to A is delivered to C. *)
Theorem failed_exchange_breaks_the_pairing :
  let a := Submit (b "GET") (b "http://a.example/") [] [] in
  let b0 := Submit (b "GET") (b "http://b.example/") [] [] in
  let c := Submit (b "GET") (b "http://c.example/") [] [] in
  let stray :=
    run [a; b0; c; Pump; Pump; Pump]
        (Ship.started
           (incoming [wire 2 [x00; x00; x00; x00; x01]
                      ++ wire 1 (b "answer to A") ++ wire 1 (b "answer to B")
                      ++ wire 1 (b "answer to C")])) in
  let cut :=
    run [a; b0; Pump; Pump]
        (Ship.started (incoming [take 9 (wire 1 (b "answer to A"))])) in
  ((Ship.error <$> Ship.heap stray !! 0%nat)
     = Some (Some (b "Unexpected message type: 2"))
   /\ (Ship.error <$> Ship.heap stray !! 1%nat)
      = Some (Some (b "Failed to read response data"))
   /\ (Ship.response <$> Ship.heap stray !! 2%nat)
      = Some (Some (b "answer to A")))
  /\ (exchanges (calls (Ship.tcp_sock cut))
      = [(wire 0 (b "GET http://a.example/ HTTP/1.1" ++ CRLF ++ CRLF),
          take 9 (wire 1 (b "answer to A")));
         (wire 0 (b "GET http://b.example/ HTTP/1.1" ++ CRLF ++ CRLF), [])]
      /\ sent (Ship.tcp_sock cut)
         = wire 0 (b "GET http://a.example/ HTTP/1.1" ++ CRLF ++ CRLF)
           ++ wire 0 (b "GET http://b.example/ HTTP/1.1" ++ CRLF ++ CRLF)
      /\ (Ship.error <$> Ship.heap cut !! 0%nat)
         = Some (Some (b "Failed to read response data"))
      /\ (Ship.error <$> Ship.heap cut !! 1%nat)
         = Some (Some (b "Failed to read response header"))
      /\ Ship.connected cut = true).
Proof.
  cbv zeta. repeat split; vm_compute; reflexivity.
Qed.

(** * Termination of the loops that read until the peer stops *)

Section Termination.

Variable urlparse : str -> result Offshore.parsed_url.
Variable strip : str -> str.
Variable net : Offshore.network.

(** A [recv] takes out of the inbox at least what it returns. *)
Lemma recv_size (n : nat) (s : socket) :
  match recv n s with
  | (Ok chunk, s1) =>
      (Offshore.inbox_size s1 + length chunk <= Offshore.inbox_size s)%nat
  | (Raise _ _, s1) => (Offshore.inbox_size s1 < Offshore.inbox_size s)%nat
  end.
Proof.
  unfold recv, Offshore.inbox_size.
  destruct (inbox s) as [|[d|cls msg] rest]; cbn [inbox foldr Offshore.event_size].
  - cbn. lia.
  - pose proof (length_take d n) as Ht. pose proof (length_drop d n) as Hd.
    destruct (drop n d) as [|y l] eqn:E;
      cbn [is_empty inbox foldr Offshore.event_size length] in Hd |- *; lia.
  - lia.
Qed.

Lemma recv_all_loop_size (fuel n : nat) :
  forall (data0 : bytes) (s : socket),
    match recv_all_loop fuel n data0 s with
    | (Ok (Some d), s1) =>
        (Offshore.inbox_size s1 + length d
         <= Offshore.inbox_size s + length data0)%nat
        /\ (n <= length d)%nat
    | (_, s1) => (Offshore.inbox_size s1 <= Offshore.inbox_size s)%nat
    end.
Proof.
  induction fuel as [|fuel IH]; intros data0 s; cbn [recv_all_loop];
    destruct (length data0 <? n)%nat eqn:El;
    try (apply Nat.ltb_ge in El; cbn; lia); try (cbn; lia).
  unfold bind. pose proof (recv_size (n - length data0) s) as Hr.
  destruct (recv (n - length data0) s) as [[chunk|cls msg] s1]; [|lia].
  destruct chunk as [|y chunk0]; cbn [is_empty]; [cbn in Hr |- *; lia|].
  specialize (IH (data0 ++ y :: chunk0) s1).
  destruct (recv_all_loop fuel n (data0 ++ y :: chunk0) s1) as [[[d|]|cls msg] s2];
    rewrite ?length_app in IH; cbn [length] in *; lia.
Qed.

Lemma send_message_inbox (t : N) (payload : bytes) (s : socket) :
  inbox (snd (send_message t payload s)) = inbox s.
Proof.
  unfold send_message, bind, lift.
  destruct (frame t payload) as [data|cls msg]; [|reflexivity].
  unfold sendall. destruct (send_script s) as [|[|k cls msg] rest]; reflexivity.
Qed.

(** A turn of the serving loop that asks for another turn has read a whole
    header. *)
Lemma read_request_size (s : socket) :
  match Offshore.read_request s with
  | (Ok (inl Offshore.Continue), s1) | (Ok (inr _), s1) =>
      (Offshore.inbox_size s1 + 5 <= Offshore.inbox_size s)%nat
  | _ => True
  end.
Proof.
  unfold Offshore.read_request, bind, _recv_all.
  pose proof (recv_all_loop_size (N.to_nat 5) (N.to_nat 5) [] s) as H1.
  destruct (recv_all_loop (N.to_nat 5) (N.to_nat 5) [] s) as [[[h|]|cls msg] s1];
    cbn [Ship.falsy]; try exact I.
  destruct H1 as [H1 H5]. change (N.to_nat 5) with 5%nat in H5. cbn [length] in H1.
  destruct h as [|c h]; [cbn in H5; lia|]. cbn [is_empty default from_option id].
  destruct ((c :: h) !! 4%nat) as [t|]; [|exact I].
  destruct (negb _); [cbn; lia|].
  set (n := N.to_nat (unpack_be32 (take 4 (c :: h)))).
  pose proof (recv_all_loop_size n n [] s1) as H2.
  destruct (recv_all_loop n n [] s1) as [[[d|]|cls msg] s2];
    cbn [Ship.falsy]; try exact I.
  destruct (is_empty d); cbn; [exact I|]. cbn [length] in *. lia.
Qed.

Lemma serve_one_size (st : Offshore.serving) :
  fst (Offshore.serve_one urlparse strip net st) = Offshore.Continue ->
  (Offshore.inbox_size (Offshore.conn (snd (Offshore.serve_one urlparse strip net st)))
   + 5 <= Offshore.inbox_size (Offshore.conn st))%nat.
Proof.
  unfold Offshore.serve_one. pose proof (read_request_size (Offshore.conn st)) as Hr.
  destruct (Offshore.read_request (Offshore.conn st)) as [[[e|d]|cls msg] c];
    cbn [fst snd Offshore.conn]; try discriminate.
  - intros ->. exact Hr.
  - destruct (Offshore.process_request urlparse strip net d) as [response0 log].
    pose proof (send_message_inbox 1 response0 c) as Hi.
    destruct (send_message 1 response0 c) as [[u|cls msg] c'];
      cbn [fst snd Offshore.conn] in *; [|discriminate].
    intros _. unfold Offshore.inbox_size in *. rewrite Hi. exact Hr.
Qed.



(** The loop that collects the destination's response does not depend on its
    fuel once the fuel exceeds the size of the inbox. *)
Lemma recv_response_fuel :
  forall (fuel fuel' : nat) (response0 : bytes) (s : socket),
    (Offshore.inbox_size s < fuel)%nat -> (Offshore.inbox_size s < fuel')%nat ->
    Offshore.recv_response fuel response0 s
    = Offshore.recv_response fuel' response0 s.
Proof.
  induction fuel as [|fuel IH]; intros fuel' response0 s Hf Hf'; [lia|].
  destruct fuel' as [|fuel']; [lia|]. cbn [Offshore.recv_response].
  pose proof (recv_size 4096 s) as Hr.
  destruct (recv 4096 s) as [[chunk|cls msg] s1]; [|reflexivity].
  destruct chunk as [|y chunk0]; cbn [is_empty]; [reflexivity|].
  cbn [length] in Hr. apply IH; lia.
Qed.

End Termination.

(** * The pump as a loop *)

(** What a turn of the pump leaves in the item it dequeued: the item is
    signalled and holds either an error message or a non-empty response. *)
Lemma pump_completes_item
    (s : Ship.ShipProxy) (i : nat) (q : list nat) (it : Ship.RequestItem) :
  Ship.request_queue s = i :: q -> Ship.heap s !! i = Some it ->
  exists it',
    Ship.heap (Ship.process_requests_body s) !! i = Some it'
    /\ Ship.response_event it' = true
    /\ ((exists msg, Ship.error it' = Some msg)
        \/ (exists r, Ship.response it' = Some r /\ r <> []
                      /\ Ship.error it' = Ship.error it)).
Proof.
  intros Hq Hh. unfold Ship.process_requests_body. rewrite Hq, Hh.
  pose proof (lookup_lt_Some _ _ _ Hh) as Hlt.
  destruct (Ship.connected s); cbn [negb].
  - destruct (Ship.exchange (Ship.build_request_string it) (Ship.tcp_sock s))
      as [[r|cls msg] sock'] eqn:E; cbn [Ship.heap].
    + eexists. split; [apply list_lookup_insert_eq, Hlt|].
      split; [reflexivity|]. right. exists r. cbn. split; [reflexivity|].
      split; [|reflexivity].
      unfold Ship.exchange, bind in E.
      destruct (send_message 0 (Ship.build_request_string it) (Ship.tcp_sock s))
        as [[u|cls msg] s1]; [|discriminate E].
      eapply read_response_nonempty, E.
    + eexists. split; [apply list_lookup_insert_eq, Hlt|].
      split; [reflexivity|]. left. eexists. reflexivity.
  - cbn [Ship.heap]. eexists. split; [apply list_lookup_insert_eq, Hlt|].
    split; [reflexivity|]. left. eexists. reflexivity.
Qed.

Lemma process_requests_body_running (s : Ship.ShipProxy) :
  Ship.running (Ship.process_requests_body s) = Ship.running s.
Proof.
  unfold Ship.process_requests_body.
  destruct (Ship.request_queue s) as [|i q]; [reflexivity|].
  destruct (Ship.heap s !! i) as [it|]; [|reflexivity].
  destruct (negb (Ship.connected s)); [reflexivity|].
  destruct (Ship.exchange _ _) as [r sock']. reflexivity.
Qed.

(** [n] turns of [process_requests] are the schedule of [n] pump turns. *)
Lemma process_requests_run (n : nat) :
  forall s : Ship.ShipProxy,
    Ship.running s = true ->
    Ship.process_requests n s = run (replicate n Pump) s.
Proof.
  induction n as [|n IH]; intros s Hr; [reflexivity|].
  cbn [Ship.process_requests replicate]. rewrite Hr.
  unfold run. cbn [foldl step]. apply IH.
  rewrite process_requests_body_running. exact Hr.
Qed.

(** * Further properties of the framing code *)

Section MoreReading.

Lemma recv_at_most (n : nat) (s : socket) (chunk : bytes) (s1 : socket) :
  recv n s = (Ok chunk, s1) -> (length chunk <= n)%nat.
Proof.
  unfold recv. destruct (inbox s) as [|[d|cls msg] rest]; intros [= <- _].
  - cbn. lia.
  - rewrite length_take. lia.
Qed.

Lemma recv_all_loop_exact (fuel n : nat) :
  forall (data0 : bytes) (s : socket) (d : bytes) (s' : socket),
    (length data0 <= n)%nat ->
    recv_all_loop fuel n data0 s = (Ok (Some d), s') -> length d = n.
Proof.
  induction fuel as [|fuel IH]; intros data0 s d s' Hle; cbn [recv_all_loop];
    destruct (length data0 <? n)%nat eqn:El;
    try (apply Nat.ltb_ge in El; intros [= <- _]; lia); try discriminate.
  apply Nat.ltb_lt in El. unfold bind.
  destruct (recv (n - length data0) s) as [[chunk|cls msg] s1] eqn:Er;
    [|discriminate].
  apply recv_at_most in Er.
  destruct chunk as [|y chunk0]; cbn [is_empty]; [discriminate|].
  apply IH. rewrite length_app. lia.
Qed.

(** One [recv] of at most [n > 0] bytes on a socket that still carries the
    non-empty [stream]. *)
Lemma recv_carries_any (n : nat) (stream : bytes) (rest : list recv_event)
      (s : socket) :
  (0 < n)%nat -> carries stream rest s -> stream <> [] ->
  exists chunk stream' s1,
    recv n s = (Ok chunk, s1) /\ chunk <> [] /\ stream = chunk ++ stream'
    /\ carries stream' rest s1 /\ after_reading chunk s s1.
Proof.
  intros Hn (cs & Hin & Hne & Hcat) Hs.
  destruct cs as [|c cs0]; [cbn in Hcat; congruence|].
  cbn in Hne, Hcat. apply andb_true_iff in Hne as [Hc Hcs0].
  unfold recv. rewrite Hin. cbn [map app].
  eexists (take n c), (drop n c ++ concat cs0), _.
  split; [reflexivity|]. split.
  { destruct c; [discriminate Hc|]. destruct n; [lia|]. discriminate. }
  split; [rewrite app_assoc, take_drop; congruence|]. split.
  - destruct (drop n c) as [|y l] eqn:Ed; cbn [is_empty].
    + exists cs0. done.
    + exists ((y :: l) :: cs0). done.
  - repeat split. exists [take n c]. cbn. rewrite app_nil_r. done.
Qed.

(** [_recv_all] when the peer closes before [n] bytes have come. *)
Lemma recv_all_loop_closed (fuel n : nat) :
  forall (data0 a : bytes) (s : socket),
    carries a [] s ->
    (length data0 + length a < n)%nat -> (length a < fuel)%nat ->
    exists s', recv_all_loop fuel n data0 s = (Ok None, s') /\ inbox s' = []
               /\ sent s' = sent s.
Proof.
  induction fuel as [|fuel IH]; intros data0 a s Hc Hn Hf; [lia|].
  cbn [recv_all_loop].
  replace (length data0 <? n)%nat with true by (symmetry; apply Nat.ltb_lt; lia).
  unfold bind. destruct a as [|x a0].
  - destruct Hc as (cs & Hin & Hne & Hcat).
    destruct cs as [|[|y c] cs0]; [|discriminate Hne|discriminate Hcat].
    unfold recv. rewrite Hin. cbn. eexists. done.
  - destruct (recv_carries_any (n - length data0) (x :: a0) [] s)
      as (chunk & a' & s1 & Hr & Hne & Ha & Hc1 & (Hs1 & _)); [lia|exact Hc|done|].
    rewrite Hr. destruct chunk as [|y chunk0]; [done|]. cbn [is_empty].
    assert (Hl : length (x :: a0) = length ((y :: chunk0) ++ a')) by congruence.
    rewrite length_app in Hl. cbn [length] in Hl, Hf, Hn.
    destruct (IH (data0 ++ y :: chunk0) a' s1 Hc1) as (s' & E & Hi & Hs').
    { rewrite length_app. cbn [length]. lia. }
    { lia. }
    exists s'. split; [exact E|]. split; [exact Hi|]. congruence.
Qed.

End MoreReading.

(** X1.  [_recv_all(length)] never returns a short or a long message: when it
    returns data, the data is exactly [length] bytes, whatever the network
    delivers and in whatever pieces. *)
Theorem recv_all_returns_exactly
    (n : N) (s s' : socket) (d : bytes) :
  _recv_all n s = (Ok (Some d), s') -> len d = n.
Proof.
  unfold _recv_all, len. intros H.
  apply recv_all_loop_exact in H; [|cbn; lia]. rewrite H. apply N2Nat.id.
Qed.

Lemma recv_all_returns_exactly_witness :
  let s := Socket [] [] [Chunk (b "ab"); Chunk (b "cdefg"); RecvRaise OSErrorCls []]
                  [] false in
  _recv_all 5 s
    = (Ok (Some (b "abcde")),
       Socket [] [] [Chunk (b "fg"); RecvRaise OSErrorCls []]
              [CallRecv (b "ab"); CallRecv (b "cde")] false)
  /\ len (b "abcde") = 5.
Proof.
  intros s.
  assert (H : _recv_all 5 s
              = (Ok (Some (b "abcde")),
                 Socket [] [] [Chunk (b "fg"); RecvRaise OSErrorCls []]
                        [CallRecv (b "ab"); CallRecv (b "cde")] false))
    by reflexivity.
  split; [exact H|]. exact (recv_all_returns_exactly 5 s _ _ H).
Defined.

(** X2.  When the peer closes the connection after fewer bytes than asked
    for, [_recv_all] returns [None]: the bytes received so far are dropped,
    not handed on as a short message. *)
Theorem recv_all_peer_closed_early (n : N) (a : bytes) (s : socket) :
  carries a [] s -> len a < n ->
  exists s', _recv_all n s = (Ok None, s') /\ inbox s' = [].
Proof.
  intros Hc Hn. unfold _recv_all, len in *.
  destruct (recv_all_loop_closed (N.to_nat n) (N.to_nat n) [] a s Hc)
    as (s' & E & Hi & _); cbn [length]; try lia.
  exists s'. done.
Qed.

Lemma recv_all_peer_closed_early_witness :
  exists s', _recv_all 5 (incoming [b "ab"; b "c"]) = (Ok None, s') /\ inbox s' = [].
Proof.
  apply (recv_all_peer_closed_early 5 (b "abc")); [|reflexivity].
  exists [b "ab"; b "c"]. repeat split; reflexivity.
Defined.

(** X3.  [read_response] on a frame whose type is not 1 raises "Unexpected
    message type: <type>" after reading the five header bytes only: the
    declared payload stays on the connection, where the next read will take
    it for a header. *)
Theorem read_response_rejects_other_type
    (t : N) (payload more : bytes) (rest : list recv_event) (s : socket) :
  t <> 1 -> t < 256 ->
  carries (wire t payload ++ more) rest s ->
  exists s',
    Ship.read_response s
    = (Raise ExceptionCls (b "Unexpected message type: " ++ str_of_N t), s')
    /\ carries (payload ++ more) rest s'.
Proof.
  intros Ht1 Ht Hc.
  destruct (recv_header t payload more rest s Hc) as (s1 & H1 & Hc1 & _).
  exists s1. split; [|exact Hc1].
  unfold Ship.read_response, bind. rewrite H1.
  change (Ship.falsy (Some (header_of t payload))) with false. cbv iota.
  cbn [default from_option id].
  destruct (header_type t payload Ht) as [-> ->].
  apply N.eqb_neq in Ht1. rewrite Ht1. reflexivity.
Qed.

Lemma read_response_rejects_other_type_witness :
  exists s',
    Ship.read_response (incoming [wire 0 (b "GET / HTTP/1.1") ++ b "tail"])
    = (Raise ExceptionCls (b "Unexpected message type: 0"), s')
    /\ carries (b "GET / HTTP/1.1" ++ b "tail") [] s'.
Proof.
  apply (read_response_rejects_other_type 0 (b "GET / HTTP/1.1") (b "tail") []);
    [discriminate | reflexivity |].
  exists [wire 0 (b "GET / HTTP/1.1") ++ b "tail"]. repeat split; reflexivity.
Defined.

(** X4.  When the peer closes before five header bytes have arrived,
    [read_response] raises "Failed to read response header". *)
Theorem read_response_header_cut (a : bytes) (s : socket) :
  carries a [] s -> len a < 5 ->
  fst (Ship.read_response s)
  = Raise ExceptionCls (b "Failed to read response header").
Proof.
  intros Hc Hl.
  destruct (recv_all_peer_closed_early 5 a s Hc Hl) as (s' & E & _).
  unfold Ship.read_response, bind. rewrite E. reflexivity.
Qed.

Lemma read_response_header_cut_witness :
  fst (Ship.read_response (incoming [[x00; x00]; [x00]]))
  = Raise ExceptionCls (b "Failed to read response header").
Proof.
  apply (read_response_header_cut [x00; x00; x00]); [|reflexivity].
  exists [[x00; x00]; [x00]]. repeat split; reflexivity.
Defined.

(** X5.  When the peer closes after a complete type-1 header but before the
    declared number of payload bytes has arrived, [read_response] raises
    "Failed to read response data": a truncated response is never
    delivered. *)
Theorem read_response_payload_cut (payload a : bytes) (s : socket) :
  fits32 payload = true ->
  len a < len payload ->
  carries (header_of 1 payload ++ a) [] s ->
  fst (Ship.read_response s)
  = Raise ExceptionCls (b "Failed to read response data").
Proof.
  intros Hfit Hl Hc.
  destruct (recv_all_carries (header_of 1 payload) a [] s Hc)
    as (s1 & E1 & Hc1 & _).
  destruct (recv_all_peer_closed_early (len payload) a s1 Hc1 Hl) as (s2 & E2 & _).
  unfold Ship.read_response, bind.
  change (len (header_of 1 payload)) with 5 in E1. rewrite E1.
  change (Ship.falsy (Some (header_of 1 payload))) with false. cbv iota.
  cbn [default from_option id]. rewrite (header_length 1 payload Hfit).
  destruct (header_type 1 payload) as [-> ->]; [lia|].
  cbn [N.eqb Pos.eqb negb]. rewrite E2. reflexivity.
Qed.

Lemma read_response_payload_cut_witness :
  fst (Ship.read_response
         (incoming [header_of 1 (b "HTTP/1.1 200 OK"); b "HTTP/1."]))
  = Raise ExceptionCls (b "Failed to read response data").
Proof.
  apply (read_response_payload_cut (b "HTTP/1.1 200 OK") (b "HTTP/1."));
    [reflexivity | reflexivity |].
  exists [header_of 1 (b "HTTP/1.1 200 OK"); b "HTTP/1."].
  repeat split; reflexivity.
Defined.

Lemma send_message_written (t : N) (payload : bytes) (s s1 : socket) :
  send_message t payload s = (Ok tt, s1) ->
  sent s1 = sent s ++ wire t payload
  /\ fits32 payload = true /\ t < 256.
Proof.
  unfold send_message, bind, lift, frame, pack_be32, bytes_of_int, fits32.
  destruct (len payload <? UINT32_LIMIT); [|discriminate].
  destruct (t <? 256) eqn:Et; [|discriminate]. apply N.ltb_lt in Et.
  unfold sendall. destruct (send_script s) as [|[|k cls msg] script];
    intros [= <-]; cbn [sent]; done.
Qed.

(** X6.  What [send_message] writes can be read back in one way only: if two
    successful [send_message] calls on fresh connections put the same bytes
    on the wire, up to whatever is written after them, then they were given
    the same type and the same payload, and what follows is the same. *)
Theorem send_message_unambiguous
    (t t' : N) (p p' more more' : bytes) (s s1 s' s1' : socket) :
  sent s = [] -> sent s' = [] ->
  send_message t p s = (Ok tt, s1) ->
  send_message t' p' s' = (Ok tt, s1') ->
  sent s1 ++ more = sent s1' ++ more' ->
  t = t' /\ p = p' /\ more = more'.
Proof.
  intros Hs Hs' E E' H.
  apply send_message_written in E as (W & Hp & Ht).
  apply send_message_written in E' as (W' & Hp' & Ht').
  rewrite W, W', Hs, Hs' in H. cbn [app] in H.
  pose proof (wire_length_field t p Hp) as L.
  pose proof (wire_length_field t' p' Hp') as L'.
  assert (H4 : take 4 (wire t p) = take 4 (wire t' p')).
  { apply (f_equal (take 4)) in H. exact H. }
  rewrite H4, L' in L.
  unfold wire, header_of in H. cbn [app] in H.
  injection H as _ _ _ _ Hty Hrest.
  apply (f_equal Byte.to_N) in Hty. rewrite !byte_of_N_to_N in Hty.
  rewrite !N.mod_small in Hty by assumption.
  assert (Hlen : length p = length p') by (unfold len in L; lia).
  apply app_inj_1 in Hrest; [|exact Hlen]. destruct Hrest as [-> ->]. done.
Qed.

Lemma send_message_unambiguous_witness :
  0 = 0 /\ b "GET" = b "GET" /\ b "rest" = b "rest".
Proof.
  apply (send_message_unambiguous 0 0 (b "GET") (b "GET") (b "rest") (b "rest")
           (incoming []) (snd (send_message 0 (b "GET") (incoming [])))
           (incoming []) (snd (send_message 0 (b "GET") (incoming []))));
    reflexivity.
Defined.

(** * Further properties of the pump *)

(** X7.  While the proxy is not connected, a turn of the pump fails the
    request at the head of the queue with "No connection to offshore proxy"
    and signals it, without touching the socket; the dispatcher answers its
    client with a 502 carrying that message. *)
Theorem pump_fails_fast_when_not_connected
    (s : Ship.ShipProxy) (i : nat) (q : list nat) (it : Ship.RequestItem) :
  Ship.connected s = false ->
  Ship.request_queue s = i :: q ->
  Ship.heap s !! i = Some it ->
  let s' := Ship.process_requests_body s in
  Ship.tcp_sock s' = Ship.tcp_sock s
  /\ Ship.request_queue s' = q
  /\ exists it',
       Ship.heap s' !! i = Some it'
       /\ Ship.error it' = Some (b "No connection to offshore proxy")
       /\ Ship.response it' = Ship.response it
       /\ Ship.response_event it' = true
       /\ Ship.handle_request_reply it'
          = Ship.SendError 502 (b "Proxy Error: No connection to offshore proxy").
Proof.
  intros Hc Hq Hh. cbv zeta. unfold Ship.process_requests_body.
  rewrite Hq, Hh, Hc. cbn [negb Ship.tcp_sock Ship.request_queue Ship.heap].
  split; [reflexivity|]. split; [reflexivity|].
  eexists. split; [apply list_lookup_insert_eq; eapply lookup_lt_Some, Hh|].
  repeat split; reflexivity.
Qed.

Lemma pump_fails_fast_when_not_connected_witness :
  let it := Ship.mkRequestItem (b "GET") (b "http://a.example/") [] []
                               false None None in
  let s := Ship.mkShipProxy [0%nat] [it] (incoming []) false true in
  let s' := Ship.process_requests_body s in
  Ship.tcp_sock s' = incoming []
  /\ Ship.request_queue s' = []
  /\ exists it',
       Ship.heap s' !! 0%nat = Some it'
       /\ Ship.error it' = Some (b "No connection to offshore proxy")
       /\ Ship.response it' = None
       /\ Ship.response_event it' = true
       /\ Ship.handle_request_reply it'
          = Ship.SendError 502 (b "Proxy Error: No connection to offshore proxy").
Proof.
  intros it s.
  exact (pump_fails_fast_when_not_connected s 0 [] it eq_refl eq_refl eq_refl).
Defined.

(** X8.  A turn of the pump on an empty queue changes nothing.  A turn on a
    non-empty queue removes exactly the head of the queue and leaves every
    other item as it was; the number of items does not change. *)
Theorem pump_turn_touches_only_the_head (s : Ship.ShipProxy) :
  (Ship.request_queue s = [] -> Ship.process_requests_body s = s)
  /\ (forall i q j,
        Ship.request_queue s = i :: q ->
        Ship.request_queue (Ship.process_requests_body s) = q
        /\ length (Ship.heap (Ship.process_requests_body s))
           = length (Ship.heap s)
        /\ (j <> i ->
            Ship.heap (Ship.process_requests_body s) !! j = Ship.heap s !! j)).
Proof.
  unfold Ship.process_requests_body. split.
  - intros ->. reflexivity.
  - intros i q j ->.
    destruct (Ship.heap s !! i) as [it|]; [|done].
    destruct (negb (Ship.connected s)).
    + cbn. rewrite length_insert. split; [done|]. split; [done|].
      intros Hj. apply list_lookup_insert_ne. congruence.
    + destruct (Ship.exchange _ _) as [r sock']. cbn.
      rewrite length_insert. split; [done|]. split; [done|].
      intros Hj. apply list_lookup_insert_ne. congruence.
Qed.

Lemma pump_turn_touches_only_the_head_witness :
  let a := Ship.mkRequestItem (b "GET") (b "http://a.example/") [] []
                              false None None in
  let c := Ship.mkRequestItem (b "GET") (b "http://c.example/") [] []
                              false None None in
  let s := Ship.mkShipProxy [0%nat; 1%nat] [a; c] (incoming []) true true in
  Ship.request_queue (Ship.process_requests_body s) = [1%nat]
  /\ length (Ship.heap (Ship.process_requests_body s)) = 2%nat
  /\ Ship.heap (Ship.process_requests_body s) !! 1%nat = Some c.
Proof.
  intros a c s.
  destruct (proj2 (pump_turn_touches_only_the_head s) 0%nat [1%nat] 1%nat eq_refl)
    as (Hq & Hl & Hj).
  split; [exact Hq|]. split; [exact Hl|]. apply Hj. discriminate.
Defined.

(** X9.  Whatever happens on the socket, a turn of the pump signals the item
    it dequeued, and the item then holds an error message or a non-empty
    response: the pump never signals an item and leaves it without a
    result. *)
Theorem pump_turn_always_signals
    (s : Ship.ShipProxy) (i : nat) (q : list nat) (it : Ship.RequestItem) :
  Ship.request_queue s = i :: q -> Ship.heap s !! i = Some it ->
  exists it',
    Ship.heap (Ship.process_requests_body s) !! i = Some it'
    /\ Ship.response_event it' = true
    /\ ((exists msg, Ship.error it' = Some msg)
        \/ (exists r, Ship.response it' = Some r /\ r <> [])).
Proof.
  intros Hq Hh.
  destruct (pump_completes_item s i q it Hq Hh) as (it' & H1 & H2 & H3).
  exists it'. split; [exact H1|]. split; [exact H2|].
  destruct H3 as [H3|(r & Hr & Hne & _)]; [left; exact H3|right; eauto].
Qed.

Lemma pump_turn_always_signals_witness :
  let it := Ship.mkRequestItem (b "GET") (b "http://a.example/") [] []
                               false None None in
  let s := Ship.mkShipProxy [0%nat] [it]
             (Socket [] [SendRaise 3 OSErrorCls (b "[Errno 32] Broken pipe")]
                     [] [] false) true true in
  exists it',
    Ship.heap (Ship.process_requests_body s) !! 0%nat = Some it'
    /\ Ship.response_event it' = true
    /\ ((exists msg, Ship.error it' = Some msg)
        \/ (exists r, Ship.response it' = Some r /\ r <> [])).
Proof.
  intros it s.
  exact (pump_turn_always_signals s 0 [] it eq_refl eq_refl).
Defined.

(** X10.  When the write of a request fails, the pump stores the message of
    the exception as the item's error, leaves its response as it was and
    signals it, and does not read from the socket for that request: only
    the bytes the failed [sendall] got out are on the wire, and the inbox is
    as it was. *)
Theorem pump_send_failure
    (s : Ship.ShipProxy) (i : nat) (q : list nat) (it : Ship.RequestItem)
    (k : nat) (cls : exn_class) (msg : str) (script : list send_event) :
  Ship.connected s = true ->
  Ship.request_queue s = i :: q ->
  Ship.heap s !! i = Some it ->
  request_fits it = true ->
  send_script (Ship.tcp_sock s) = SendRaise k cls msg :: script ->
  let s' := Ship.process_requests_body s in
  (exists it',
     Ship.heap s' !! i = Some it'
     /\ Ship.error it' = Some msg
     /\ Ship.response it' = Ship.response it
     /\ Ship.response_event it' = true)
  /\ inbox (Ship.tcp_sock s') = inbox (Ship.tcp_sock s)
  /\ sent (Ship.tcp_sock s')
     = sent (Ship.tcp_sock s) ++ take k (canonical_frame it)
  /\ calls (Ship.tcp_sock s')
     = calls (Ship.tcp_sock s) ++ [CallSend (take k (canonical_frame it))].
Proof.
  intros Hc Hq Hh Hfit Hscript. cbv zeta.
  rewrite <- request_frame_canonical.
  rewrite (process_requests_body_connected s i q it Hq Hh Hc).
  unfold Ship.exchange, send_message, lift.
  rewrite (frame_wire 0 _ Hfit) by lia.
  unfold bind, sendall. cbv beta. rewrite Hscript.
  cbn [Ship.heap Ship.tcp_sock inbox sent calls].
  split; [|repeat split; reflexivity].
  eexists. split; [apply list_lookup_insert_eq; eapply lookup_lt_Some, Hh|].
  repeat split; reflexivity.
Qed.

Lemma pump_send_failure_witness :
  let it := Ship.mkRequestItem (b "GET") (b "http://a.example/") [] []
                               false None None in
  let sock := Socket [] [SendRaise 3 OSErrorCls (b "[Errno 32] Broken pipe")]
                     [Chunk (wire 1 (b "late"))] [] false in
  let s' := Ship.process_requests_body
              (Ship.mkShipProxy [0%nat] [it] sock true true) in
  (exists it',
     Ship.heap s' !! 0%nat = Some it'
     /\ Ship.error it' = Some (b "[Errno 32] Broken pipe")
     /\ Ship.response it' = None
     /\ Ship.response_event it' = true)
  /\ inbox (Ship.tcp_sock s') = [Chunk (wire 1 (b "late"))]
  /\ sent (Ship.tcp_sock s') = [] ++ take 3 (canonical_frame it)
  /\ calls (Ship.tcp_sock s') = [] ++ [CallSend (take 3 (canonical_frame it))].
Proof.
  intros it sock.
  exact (pump_send_failure (Ship.mkShipProxy [0%nat] [it] sock true true)
           0 [] it 3 OSErrorCls (b "[Errno 32] Broken pipe") []
           eq_refl eq_refl eq_refl eq_refl eq_refl).
Defined.

Section FlagsKept.

Lemma recv_keeps_closed (n : nat) (s : socket) :
  closed (snd (recv n s)) = closed s.
Proof.
  unfold recv. destruct (inbox s) as [|[d|cls msg] rest]; reflexivity.
Qed.

Lemma recv_all_loop_keeps_closed (fuel n : nat) :
  forall (data0 : bytes) (s : socket),
    closed (snd (recv_all_loop fuel n data0 s)) = closed s.
Proof.
  induction fuel as [|fuel IH]; intros data0 s; cbn [recv_all_loop];
    destruct (length data0 <? n)%nat; try reflexivity.
  unfold bind. pose proof (recv_keeps_closed (n - length data0) s) as Hr.
  destruct (recv (n - length data0) s) as [[chunk|cls msg] s1]; cbn in Hr |- *;
    [|exact Hr].
  destruct (is_empty chunk); [exact Hr|]. rewrite IH. exact Hr.
Qed.

Lemma read_response_keeps_closed (s : socket) :
  closed (snd (Ship.read_response s)) = closed s.
Proof.
  unfold Ship.read_response, bind, _recv_all.
  pose proof (recv_all_loop_keeps_closed (N.to_nat 5) (N.to_nat 5) [] s) as H1.
  destruct (recv_all_loop (N.to_nat 5) (N.to_nat 5) [] s) as [[h|cls msg] s1];
    cbn [snd] in H1 |- *; try exact H1.
  destruct (Ship.falsy h); [exact H1|].
  destruct (default [] h !! 4%nat) as [t|]; [|exact H1].
  destruct (negb _); [exact H1|].
  set (n := N.to_nat (unpack_be32 (take 4 (default [] h)))).
  pose proof (recv_all_loop_keeps_closed n n [] s1) as H2.
  destruct (recv_all_loop n n [] s1) as [[r|cls msg] s2]; cbn [snd] in H2 |- *;
    [|congruence].
  destruct (Ship.falsy r); cbn; congruence.
Qed.

Lemma send_message_keeps_closed (t : N) (payload : bytes) (s : socket) :
  closed (snd (send_message t payload s)) = closed s.
Proof.
  unfold send_message, bind, lift.
  destruct (frame t payload) as [data|cls msg]; [|reflexivity].
  unfold sendall. destruct (send_script s) as [|[|k cls msg] rest]; reflexivity.
Qed.

Lemma exchange_keeps_closed (q : bytes) (s : socket) :
  closed (snd (Ship.exchange q s)) = closed s.
Proof.
  unfold Ship.exchange, bind.
  pose proof (send_message_keeps_closed 0 q s) as H1.
  destruct (send_message 0 q s) as [[u|cls msg] s1]; cbn [snd] in H1 |- *;
    [|exact H1].
  rewrite read_response_keeps_closed. exact H1.
Qed.

Lemma step_keeps_flags (s : Ship.ShipProxy) (a : action) :
  Ship.connected (step s a) = Ship.connected s
  /\ Ship.running (step s a) = Ship.running s
  /\ closed (Ship.tcp_sock (step s a)) = closed (Ship.tcp_sock s).
Proof.
  destruct a as [m u h bd|]; [done|].
  unfold step, Ship.process_requests_body.
  destruct (Ship.request_queue s) as [|i q]; [done|].
  destruct (Ship.heap s !! i) as [it|]; [|done].
  destruct (Ship.connected s) eqn:E; cbn [negb]; [|done].
  pose proof (exchange_keeps_closed (Ship.build_request_string it)
                (Ship.tcp_sock s)) as Hx.
  destruct (Ship.exchange _ _) as [r sock']. cbn in *. done.
Qed.

End FlagsKept.

(** X11.  No sequence of enqueues and pump turns clears or sets [connected],
    changes [running], or closes the upstream socket. *)
Theorem pump_and_enqueue_keep_flags (acts : list action) (s : Ship.ShipProxy) :
  Ship.connected (run acts s) = Ship.connected s
  /\ Ship.running (run acts s) = Ship.running s
  /\ closed (Ship.tcp_sock (run acts s)) = closed (Ship.tcp_sock s).
Proof.
  unfold run. revert s. induction acts as [|a acts IH]; intros s; [done|].
  cbn [foldl]. destruct (IH (step s a)) as (H1 & H2 & H3).
  destruct (step_keeps_flags s a) as (G1 & G2 & G3).
  rewrite H1, H2, H3. done.
Qed.

(** * Further properties of the request handler *)

Section Dictionaries.

Lemma dict_get_none (k : str) (d : dict) :
  dict_get k d = None <-> k ∉ map fst d.
Proof.
  induction d as [|[k' v'] d IH]; cbn [dict_get map fst].
  - split; [intros _; apply not_elem_of_nil | done].
  - destruct (decide (k = k')) as [->|Hne].
    + rewrite bool_decide_eq_true_2 by reflexivity. split; [discriminate|].
      intros H. exfalso. apply H, list_elem_of_here.
    + rewrite bool_decide_eq_false_2 by exact Hne. rewrite IH.
      rewrite not_elem_of_cons. tauto.
Qed.

Lemma dict_get_elem (k v : str) (d : dict) :
  NoDup (map fst d) -> (k, v) ∈ d -> dict_get k d = Some v.
Proof.
  induction d as [|[k' v'] d IH]; cbn [dict_get map fst]; intros Hnd Hin.
  - apply elem_of_nil in Hin as [].
  - apply list.NoDup_cons in Hnd as [Hk' Hnd].
    apply elem_of_cons in Hin as [[= -> ->]|Hin].
    + rewrite bool_decide_eq_true_2 by reflexivity. reflexivity.
    + destruct (decide (k = k')) as [->|Hne].
      * exfalso. apply Hk'. apply list_elem_of_fmap. exists (k', v). done.
      * rewrite bool_decide_eq_false_2 by exact Hne. apply IH; assumption.
Qed.

Lemma dict_of_message_keys_sub (m : message) (ks : list str) :
  forall (d : dict) (k : str),
    k ∈ map fst (foldl (fun d k => match message_getitem k m with
                                   | Some v => dict_set k v d
                                   | None => d
                                   end) d ks) ->
    k ∈ map fst d \/ k ∈ ks.
Proof.
  induction ks as [|k0 ks IH]; intros d k; cbn [foldl]; [auto|].
  intros H. apply IH in H as [H|H]; [|right; apply list_elem_of_further, H].
  destruct (message_getitem k0 m) as [v|]; [|auto].
  rewrite dict_set_keys in H.
  destruct (bool_decide (k0 ∈ map fst d)); [auto|].
  apply elem_of_app in H as [H|H]; [auto|].
  apply list_elem_of_singleton in H as ->. right. apply list_elem_of_here.
Qed.

End Dictionaries.

(** X12.  The handler looks for the body length under the exact key
    [Content-Length].  When no header of the client's request has exactly
    that name (another spelling, such as [content-length], does not count),
    nothing is read from the connection and the request is queued with an
    empty body, as a new item at the tail of the queue. *)
Theorem enqueue_without_content_length
    (py_int : str -> result Z) (method0 : str) (c : Ship.client)
    (s : Ship.ShipProxy) :
  b "Content-Length" ∉ message_keys (Ship.client_headers c) ->
  Ship.handle_request_enqueue py_int method0 c s
  = (Ok (length (Ship.heap s)),
     Ship.mkShipProxy
       (Ship.request_queue s ++ [length (Ship.heap s)])
       (Ship.heap s
        ++ [Ship.mkRequestItem method0 (Ship.path c)
              (dict_of_message (Ship.client_headers c)) [] false None None])
       (Ship.tcp_sock s) (Ship.connected s) (Ship.running s)).
Proof.
  intros Hno. unfold Ship.handle_request_enqueue.
  assert (Hget : dict_get (b "Content-Length")
                          (dict_of_message (Ship.client_headers c)) = None).
  { apply dict_get_none. intros Hin.
    apply dict_of_message_keys_sub in Hin as [Hin|Hin]; [|exact (Hno Hin)].
    apply elem_of_nil in Hin as []. }
  rewrite Hget. reflexivity.
Qed.

Lemma enqueue_without_content_length_witness :
  let c := Ship.mkClient (b "http://example.com/upload")
             [(b "Host", b "example.com"); (b "content-length", b "5")]
             (b "hello") in
  let py_int := fun _ : str => @Ok Z 5%Z in
  Ship.body <$>
    (Ship.heap (snd (Ship.handle_request_enqueue py_int (b "POST") c
                       (Ship.started (incoming [])))) !! 0%nat)
  = Some [].
Proof.
  intros c py_int.
  rewrite (enqueue_without_content_length py_int (b "POST") c
             (Ship.started (incoming []))).
  - reflexivity.
  - cbn. intros [[=]|[[=]|[]%elem_of_nil]%elem_of_cons]%elem_of_cons.
Defined.



(** X14.  Looking a header name of the client's request up in the stored
    dictionary gives the value of the first field of the request whose name
    matches without regard to case: for a name the client sent more than
    once, and for two spellings of the same name, it is the first value. *)
Theorem stored_header_is_first_match (m : message) (k : str) :
  k ∈ message_keys m ->
  dict_get k (dict_of_message m) = message_getitem k m
  /\ exists v, message_getitem k m = Some v.
Proof.
  intros Hk. destruct (dict_of_message_spec m) as (Hnd & Hval & Hcov).
  pose proof (Hcov k Hk) as Hin.
  apply list_elem_of_fmap in Hin as ([k1 v] & Hk1 & Hin). cbn in Hk1. subst k1.
  rewrite (dict_get_elem k v _ Hnd Hin), (Hval k v Hin). eauto.
Qed.

Lemma stored_header_is_first_match_witness :
  let m := [(b "Accept", b "text/html"); (b "accept", b "image/png");
            (b "Accept", b "*/*")] in
  dict_get (b "accept") (dict_of_message m) = Some (b "text/html").
Proof.
  intros m.
  destruct (stored_header_is_first_match m (b "accept")) as [H _].
  - cbn. apply list_elem_of_further, list_elem_of_here.
  - rewrite H. reflexivity.
Defined.

(** * Further properties of the remote executor *)

Section ServingLoop.

Variable urlparse : str -> result Offshore.parsed_url.
Variable strip : str -> str.
Variable net : Offshore.network.

Lemma serve_one_peer_closed (st : Offshore.serving) :
  carries [] [] (Offshore.conn st) ->
  exists c', Offshore.serve_one urlparse strip net st
             = (Offshore.Break, Offshore.mkServing c' (Offshore.dest_calls st))
             /\ sent c' = sent (Offshore.conn st).
Proof.
  intros Hc.
  destruct (recv_all_loop_closed 5 5 [] [] (Offshore.conn st) Hc)
    as (c' & E & _ & Hs); cbn [length]; try lia.
  exists c'. split; [|exact Hs].
  unfold Offshore.serve_one, Offshore.read_request, bind, _recv_all.
  change (N.to_nat 5) with 5%nat. rewrite E. reflexivity.
Qed.

Lemma serve_loop_answers (reqs : list bytes) :
  forall (fuel : nat) (st : Offshore.serving),
    (Offshore.inbox_size (Offshore.conn st) < fuel)%nat ->
    forallb (servable urlparse strip net) reqs = true ->
    sends_succeed (Offshore.conn st) = true ->
    carries (concat (map (wire 0) reqs)) [] (Offshore.conn st) ->
    exists st',
      Offshore.serve_loop urlparse strip net fuel st = Some st'
      /\ sent (Offshore.conn st')
         = sent (Offshore.conn st)
           ++ concat (map (answer_frame urlparse strip net) reqs)
      /\ Offshore.dest_calls st'
         = Offshore.dest_calls st
           ++ concat (map (answer_calls urlparse strip net) reqs)
      /\ closed (Offshore.conn st') = true.
Proof.
  induction reqs as [|q reqs IH]; intros fuel st Hf Hok Hs Hc;
    (destruct fuel as [|fuel]; [lia|]); cbn [Offshore.serve_loop].
  - destruct (serve_one_peer_closed st Hc) as (c' & E & Hsent).
    rewrite E. eexists. split; [reflexivity|]. cbn. rewrite !app_nil_r. done.
  - cbn [forallb] in Hok. apply andb_true_iff in Hok as [Hq Hok].
    unfold servable in Hq. apply andb_true_iff in Hq as [Hq Hfa].
    apply andb_true_iff in Hq as [Hne Hfq].
    cbn [map concat] in Hc.
    destruct (serve_one_request urlparse strip net q
                (concat (map (wire 0) reqs)) [] st)
      as (c' & E & Hsent & Hcl & Hs' & Hc'); try assumption.
    { intros ->. discriminate Hne. }
    pose proof (serve_one_size urlparse strip net st) as Hsz.
    rewrite E in Hsz. cbn [fst snd Offshore.conn] in Hsz. specialize (Hsz eq_refl).
    rewrite E.
    destruct (IH fuel (Offshore.mkServing c'
                         (Offshore.dest_calls st
                          ++ snd (Offshore.process_request urlparse strip net q))))
      as (st' & El & Hsent' & Hcalls' & Hclosed'); cbn [Offshore.conn]; try assumption.
    { lia. }
    exists st'. split; [exact El|]. cbn [Offshore.conn Offshore.dest_calls] in *.
    split; [|split; [|exact Hclosed']].
    + rewrite Hsent', Hsent. cbn [map concat]. rewrite <- app_assoc. reflexivity.
    + rewrite Hcalls'. cbn [map concat]. rewrite <- app_assoc. reflexivity.
Qed.

(** The loop that collects the destination's response, on a destination
    that sends [stream] and then closes, times out, or fails. *)
Lemma recv_response_carries (fuel : nat) :
  forall (response0 stream : bytes) (tl : list recv_event) (s : socket),
    (Offshore.inbox_size s < fuel)%nat ->
    carries stream tl s ->
    stream_ends tl = true ->
    fst (Offshore.recv_response fuel response0 s)
    = collected tl (response0 ++ stream).
Proof.
  induction fuel as [|fuel IH]; intros response0 stream tl s Hf Hc Hend; [lia|].
  destruct stream as [|x stream0].
  - destruct Hc as (cs & Hin & Hne & Hcat).
    destruct cs as [|[|y c] cs0]; [|discriminate Hne|discriminate Hcat].
    cbn [map app] in Hin. cbn [Offshore.recv_response]. unfold recv.
    rewrite Hin, app_nil_r.
    destruct tl as [|[[|y d]|[] msg] tl0]; try discriminate Hend; reflexivity.
  - destruct (recv_carries_any 4096 (x :: stream0) tl s)
      as (chunk & stream' & s1 & Hr & Hne & Ha & Hc1 & _); [lia|exact Hc|done|].
    pose proof (recv_size 4096 s) as Hsz. rewrite Hr in Hsz.
    destruct chunk as [|y chunk0]; [done|]. cbn [length] in Hsz.
    specialize (IH (response0 ++ y :: chunk0) stream' tl s1 ltac:(lia) Hc1 Hend).
    cbn [Offshore.recv_response]. rewrite Hr. cbn [is_empty].
    rewrite Ha, app_assoc. exact IH.
Qed.

Lemma find_host_none (lines : list str) :
  forallb (fun line => negb (startswith (b "host:") (lower line))) lines = true ->
  Offshore.find_host strip lines = None.
Proof.
  induction lines as [|line lines IH]; cbn [forallb Offshore.find_host]; [done|].
  intros [Hl Hr]%andb_true_iff. apply negb_true_iff in Hl. rewrite Hl. auto.
Qed.

End ServingLoop.

Section ExecutorProperties.

Variable urlparse : str -> result Offshore.parsed_url.
Variable strip : str -> str.
Variable net : Offshore.network.

(** X16.  The serving loop answers the requests of a connection one by one
    and in order: when the ship sends the framed requests [reqs] and then
    closes, what the loop has written when it ends is exactly the answer to
    each request as one type-1 frame, in the order of the requests, the
    destination calls were made in that order too, and the connection is
    closed. *)
Theorem offshore_answers_in_order (reqs : list bytes) (c : socket) :
  forallb (servable urlparse strip net) reqs = true ->
  sends_succeed c = true ->
  carries (concat (map (wire 0) reqs)) [] c ->
  exists st,
    Offshore.handle_ship_connection urlparse strip net c = Some st
    /\ sent (Offshore.conn st)
       = sent c ++ concat (map (answer_frame urlparse strip net) reqs)
    /\ Offshore.dest_calls st
       = concat (map (answer_calls urlparse strip net) reqs)
    /\ closed (Offshore.conn st) = true.
Proof.
  intros Hok Hs Hc. unfold Offshore.handle_ship_connection, Offshore.recv_budget.
  destruct (serve_loop_answers urlparse strip net reqs
              (S (Offshore.inbox_size c)) (Offshore.mkServing c []))
    as (st & E & H1 & H2 & H3); cbn [Offshore.conn]; try assumption; [lia|].
  exists st. cbn in H2. done.
Qed.

(** X17.  A type-0 frame with an empty payload ends the serving loop without
    an answer: the loop takes the empty request for a closed connection,
    writes nothing, leaves what follows on the connection unread and goes to
    its [finally] clause. *)
Theorem empty_request_ends_the_loop
    (more : bytes) (rest : list recv_event) (st : Offshore.serving) :
  carries (wire 0 [] ++ more) rest (Offshore.conn st) ->
  exists c',
    Offshore.serve_one urlparse strip net st
    = (Offshore.Break, Offshore.mkServing c' (Offshore.dest_calls st))
    /\ sent c' = sent (Offshore.conn st)
    /\ carries more rest c'.
Proof.
  intros Hc.
  destruct (read_request_frame [] more rest _ eq_refl Hc)
    as (c' & E & Hc' & (Hs & _)).
  exists c'. unfold Offshore.serve_one. rewrite E. done.
Qed.


(** X19.  A request whose first line does not split into three parts at its
    first two spaces is answered with the 500 response, and no destination
    is contacted. *)
Theorem malformed_request_line_is_500 (request_data : bytes) :
  length (split [SP] (Some 2%nat) (hd [] (split CRLF None request_data))) <> 3%nat ->
  Offshore.process_request urlparse strip net request_data
  = (Offshore.create_error_response 500 (b "Internal Server Error"), []).
Proof.
  intros Hl. unfold Offshore.process_request.
  destruct (decode_utf8 request_data) as [request_str|cls msg] eqn:Ed;
    [|reflexivity].
  assert (request_str = request_data) as ->.
  { unfold decode_utf8 in Ed. destruct (utf8_go _ _ _ _); congruence. }
  destruct (split CRLF None request_data) as [|request_line lines]; [reflexivity|].
  cbn [hd] in Hl.
  destruct (split [SP] (Some 2%nat) request_line) as [|m [|u [|v [|x l]]]];
    try reflexivity.
  cbn in Hl. lia.
Qed.

(** X20.  A request whose target has no host part and that has no line
    starting with [host:] (in any case) after its request line is answered
    with the 400 response, and no destination is contacted. *)
Theorem request_without_host_is_400
    (request_str url : str) (parsed : Offshore.parsed_url) :
  urlparse url = Ok parsed ->
  Offshore.hostname parsed = None ->
  forallb (fun line => negb (startswith (b "host:") (lower line)))
          (tail (split CRLF None request_str)) = true ->
  Offshore.handle_http_request urlparse strip net request_str url
  = (Offshore.create_error_response 400 (b "Bad Request - No host specified"),
     []).
Proof.
  intros Hu Hh Hlines.
  unfold Offshore.handle_http_request, Offshore.resolve_target.
  rewrite Hu, Hh. cbn [Ship.falsy].
  rewrite (find_host_none strip _ Hlines). reflexivity.
Qed.

(** X21.  When the destination accepts the connection and the request, sends
    [stream] and then closes or falls silent until the read timeout, the
    executor sends it the request text unchanged and returns exactly
    [stream], however the bytes were cut into chunks, and closes the
    destination socket. *)
Theorem response_is_forwarded_whole
    (request_str host stream : bytes) (port0 : Z) (tl : list recv_event) :
  Offshore.connect_raises (net host port0) = None ->
  sends_succeed (Offshore.target_sock (net host port0)) = true ->
  carries stream tl (Offshore.target_sock (net host port0)) ->
  stream_ends tl = true ->
  collected tl stream = Ok stream ->
  Offshore.contact net request_str host port0
  = (stream, [Offshore.DConnect host port0; Offshore.DSendAll request_str;
              Offshore.DClose]).
Proof.
  intros Hc Hs Hcar Hend Hcol. unfold Offshore.contact. rewrite Hc.
  destruct (sendall_ok request_str _ Hs) as (s1 & E & _ & _ & I & _).
  rewrite E.
  pose proof (recv_response_carries (Offshore.recv_budget s1) [] stream tl s1
                ltac:(unfold Offshore.recv_budget; lia)
                (carries_inbox _ _ _ _ I Hcar) Hend) as Hr.
  cbn [app] in Hr. rewrite Hcol in Hr.
  destruct (Offshore.recv_response _ _ s1) as [r s2]. cbn in Hr. subst r.
  reflexivity.
Qed.

(** X22.  When reading the destination's response fails with an exception
    other than the read timeout, the bytes already received are dropped and
    the answer is the 502 response; the destination socket is not closed. *)
Theorem destination_error_drops_partial_response
    (request_str host stream : bytes) (port0 : Z) (tl : list recv_event)
    (cls : exn_class) (msg : str) :
  Offshore.connect_raises (net host port0) = None ->
  sends_succeed (Offshore.target_sock (net host port0)) = true ->
  carries stream tl (Offshore.target_sock (net host port0)) ->
  stream_ends tl = true ->
  collected tl stream = Raise cls msg ->
  Offshore.contact net request_str host port0
  = (Offshore.create_error_response 502 (b "Bad Gateway"),
     [Offshore.DConnect host port0; Offshore.DSendAll request_str]).
Proof.
  intros Hc Hs Hcar Hend Hcol. unfold Offshore.contact. rewrite Hc.
  destruct (sendall_ok request_str _ Hs) as (s1 & E & _ & _ & I & _).
  rewrite E.
  pose proof (recv_response_carries (Offshore.recv_budget s1) [] stream tl s1
                ltac:(unfold Offshore.recv_budget; lia)
                (carries_inbox _ _ _ _ I Hcar) Hend) as Hr.
  cbn [app] in Hr. rewrite Hcol in Hr.
  destruct (Offshore.recv_response _ _ s1) as [r s2]. cbn in Hr. subst r.
  reflexivity.
Qed.

(** X23.  The port to connect to never comes from the request's headers: it
    is the same whatever follows the request line.  A host named in the
    request target is used whatever the [Host] header says. *)
Theorem target_ignores_headers
    (request_str request_str' url : str) (host : option str) (port0 : Z) :
  Offshore.resolve_target urlparse strip request_str url = Ok (host, port0) ->
  (exists host',
     Offshore.resolve_target urlparse strip request_str' url = Ok (host', port0))
  /\ (forall parsed h,
        urlparse url = Ok parsed -> Offshore.hostname parsed = Some h ->
        h <> [] ->
        host = Some h
        /\ Offshore.resolve_target urlparse strip request_str' url
           = Ok (Some h, port0)).
Proof.
  unfold Offshore.resolve_target.
  destruct (urlparse url) as [parsed|cls msg]; [|discriminate].
  intros [= <- <-]. split; [eexists; reflexivity|].
  intros parsed' h [= <-] Hh Hne. rewrite Hh.
  destruct h; [done|]. done.
Qed.

End ExecutorProperties.

Lemma offshore_answers_in_order_witness :
  let connect := b "CONNECT example.com:443 HTTP/1.1" ++ CRLF ++ CRLF in
  let get := b "GET http://example.com/ HTTP/1.1" ++ CRLF
               ++ b "Host: example.com" ++ CRLF ++ CRLF in
  let stream := wire 0 connect ++ wire 0 get in
  let c := incoming [take 7 stream; drop 7 stream] in
  exists st,
    Offshore.handle_ship_connection urlparse_sample strip_sample
      (fun _ _ => unreachable) c = Some st
    /\ sent (Offshore.conn st)
       = wire 1 connection_established
         ++ wire 1 (Offshore.create_error_response 502 (b "Bad Gateway"))
    /\ Offshore.dest_calls st = [Offshore.DConnect (b "example.com") 80]
    /\ closed (Offshore.conn st) = true.
Proof.
  intros connect get stream c.
  destruct (offshore_answers_in_order urlparse_sample strip_sample
              (fun _ _ => unreachable) [connect; get] c)
    as (st & E & Hs & Hd & Hcl).
  - reflexivity.
  - reflexivity.
  - exists [take 7 stream; drop 7 stream]. repeat split; reflexivity.
  - exists st. split; [exact E|]. split; [rewrite Hs; reflexivity|].
    split; [rewrite Hd; reflexivity|exact Hcl].
Defined.

Lemma empty_request_ends_the_loop_witness :
  let st := Offshore.mkServing
              (incoming [wire 0 [] ++ wire 0 (b "GET / HTTP/1.1")]) [] in
  exists c',
    Offshore.serve_one urlparse_sample strip_sample (fun _ _ => unreachable) st
    = (Offshore.Break, Offshore.mkServing c' [])
    /\ sent c' = []
    /\ carries (wire 0 (b "GET / HTTP/1.1")) [] c'.
Proof.
  intros st.
  apply (empty_request_ends_the_loop urlparse_sample strip_sample
           (fun _ _ => unreachable) (wire 0 (b "GET / HTTP/1.1")) [] st).
  exists [wire 0 [] ++ wire 0 (b "GET / HTTP/1.1")]. repeat split; reflexivity.
Defined.

Lemma malformed_request_line_is_500_witness :
  Offshore.process_request urlparse_sample strip_sample (fun _ _ => unreachable)
    (b "GET /index.html" ++ CRLF ++ CRLF)
  = (Offshore.create_error_response 500 (b "Internal Server Error"), []).
Proof.
  apply malformed_request_line_is_500. vm_compute. lia.
Defined.

Lemma request_without_host_is_400_witness :
  Offshore.handle_http_request urlparse_sample strip_sample
    (fun _ _ => unreachable)
    (b "GET /index.html HTTP/1.1" ++ CRLF ++ b "Accept: */*" ++ CRLF ++ CRLF)
    (b "/index.html")
  = (Offshore.create_error_response 400 (b "Bad Request - No host specified"),
     []).
Proof.
  apply (request_without_host_is_400 urlparse_sample strip_sample
           (fun _ _ => unreachable) _ (b "/index.html")
           (Offshore.mkParsedUrl [] None None));
    reflexivity.
Defined.

Lemma response_is_forwarded_whole_witness :
  let head := b "HTTP/1.1 200 OK" ++ CRLF ++ CRLF in
  let net := fun (_ : str) (_ : Z) =>
    Offshore.mkDestination None
      (Socket [] [] [Chunk head; Chunk (b "hello");
                     RecvRaise SocketTimeoutCls (b "timed out")] [] false) in
  let request_str := b "GET http://example.com/ HTTP/1.1" ++ CRLF ++ CRLF in
  Offshore.contact net request_str (b "example.com") 80
  = (head ++ b "hello",
     [Offshore.DConnect (b "example.com") 80; Offshore.DSendAll request_str;
      Offshore.DClose]).
Proof.
  intros head net request_str.
  apply (response_is_forwarded_whole net request_str (b "example.com")
           (head ++ b "hello") 80
           [RecvRaise SocketTimeoutCls (b "timed out")]);
    try reflexivity.
  exists [head; b "hello"]. repeat split; reflexivity.
Defined.

Lemma destination_error_drops_partial_response_witness :
  let net := fun (_ : str) (_ : Z) =>
    Offshore.mkDestination None
      (Socket [] [] [Chunk (b "HTTP/1.1 200");
                     RecvRaise OSErrorCls (b "[Errno 104] Connection reset by peer")]
              [] false) in
  let request_str := b "GET http://example.com/ HTTP/1.1" ++ CRLF ++ CRLF in
  Offshore.contact net request_str (b "example.com") 80
  = (Offshore.create_error_response 502 (b "Bad Gateway"),
     [Offshore.DConnect (b "example.com") 80; Offshore.DSendAll request_str]).
Proof.
  intros net request_str.
  apply (destination_error_drops_partial_response net request_str
           (b "example.com") (b "HTTP/1.1 200") 80
           [RecvRaise OSErrorCls (b "[Errno 104] Connection reset by peer")]
           OSErrorCls (b "[Errno 104] Connection reset by peer"));
    try reflexivity.
  exists [b "HTTP/1.1 200"]. repeat split; reflexivity.
Defined.

Lemma target_ignores_headers_witness :
  let request_str := b "GET http://example.com/ HTTP/1.1" ++ CRLF
                       ++ b "Host: other.example:8080" ++ CRLF ++ CRLF in
  Offshore.resolve_target urlparse_sample strip_sample request_str
                          (b "http://example.com/")
  = Ok (Some (b "example.com"), 80%Z).
Proof.
  intros request_str.
  destruct (target_ignores_headers urlparse_sample strip_sample
              (b "GET http://example.com/ HTTP/1.1" ++ CRLF ++ CRLF)
              request_str (b "http://example.com/")
              (Some (b "example.com")) 80%Z eq_refl) as [_ H].
  destruct (H (Offshore.mkParsedUrl (b "http") (Some (b "example.com")) None)
              (b "example.com") eq_refl eq_refl ltac:(discriminate)) as [_ H'].
  exact H'.
Defined.

(** * From the ship's request text to the executor's parse *)

Section RequestLine.

Lemma split_go_run (sep0 : byte) (sep' : str) (ms : option nat) (x : str) :
  sep0 ∉ x ->
  forall (cur s : str),
    split_go (sep0 :: sep') ms O cur (x ++ s)
    = split_go (sep0 :: sep') ms O (cur ++ x) s.
Proof.
  induction x as [|c x IH]; intros Hx cur s.
  - rewrite app_nil_r. reflexivity.
  - apply not_elem_of_cons in Hx as [Hc Hx].
    cbn [app split_go startswith].
    rewrite (bool_decide_eq_false_2 (sep0 = c)) by exact Hc.
    replace (cur ++ c :: x) with ((cur ++ [c]) ++ x)
      by (rewrite <- app_assoc; reflexivity).
    destruct ms as [[|n]|]; apply IH, Hx.
Qed.

Lemma first_line_of (line rest : str) :
  CR ∉ line -> hd [] (split CRLF None (line ++ CRLF ++ rest)) = line.
Proof.
  intros Hl. unfold split, CRLF. rewrite (split_go_run CR [LF] None line Hl).
  cbn [app split_go startswith].
  rewrite !bool_decide_eq_true_2 by reflexivity. reflexivity.
Qed.

Lemma request_line_parts (m u : str) :
  SP ∉ m -> SP ∉ u ->
  split [SP] (Some 2%nat) (m ++ [SP] ++ u ++ b " HTTP/1.1")
  = [m; u; b "HTTP/1.1"].
Proof.
  intros Hm Hu. unfold split. rewrite (split_go_run SP [] _ m Hm).
  cbn [app split_go startswith].
  rewrite bool_decide_eq_true_2 by reflexivity. cbn [fmap option_fmap option_map pred length Nat.sub].
  f_equal.
  change (b " HTTP/1.1") with (SP :: b "HTTP/1.1").
  rewrite (split_go_run SP [] _ u Hu).
  cbn [app split_go startswith].
  rewrite bool_decide_eq_true_2 by reflexivity. reflexivity.
Qed.

End RequestLine.

(** X24.  The executor reads back what the ship wrote: for a request whose
    method and target contain no space and no carriage return, the first
    line of the text built by [build_request_string] splits into exactly the
    method, the target and [HTTP/1.1]; so [process_request] answers a
    CONNECT with the canned reply and hands any other method, with the
    request's own target, to [handle_http_request]. *)
Theorem ship_request_is_parsed_back
    (urlparse : str -> result Offshore.parsed_url) (strip : str -> str)
    (net : Offshore.network) (it : Ship.RequestItem) :
  SP ∉ Ship.method it -> CR ∉ Ship.method it ->
  SP ∉ Ship.url it -> CR ∉ Ship.url it ->
  decode_utf8 (Ship.build_request_string it) = Ok (Ship.build_request_string it) ->
  split [SP] (Some 2%nat) (hd [] (split CRLF None (Ship.build_request_string it)))
  = [Ship.method it; Ship.url it; b "HTTP/1.1"]
  /\ Offshore.process_request urlparse strip net (Ship.build_request_string it)
     = if bool_decide (Ship.method it = b "CONNECT")
       then (connection_established, [])
       else Offshore.handle_http_request urlparse strip net
              (Ship.build_request_string it) (Ship.url it).
Proof.
  intros Hms Hmc Hus Huc Hutf.
  assert (Hline : split [SP] (Some 2%nat)
                    (hd [] (split CRLF None (Ship.build_request_string it)))
                  = [Ship.method it; Ship.url it; b "HTTP/1.1"]).
  { rewrite build_request_string_canonical. unfold canonical_request.
    replace (Ship.method it ++ [SP] ++ Ship.url it ++ b " HTTP/1.1" ++ CRLF
             ++ concat (map header_line (Ship.headers it)) ++ CRLF ++ Ship.body it)
      with ((Ship.method it ++ [SP] ++ Ship.url it ++ b " HTTP/1.1") ++ CRLF
            ++ concat (map header_line (Ship.headers it)) ++ CRLF ++ Ship.body it)
      by (rewrite <- !app_assoc; reflexivity).
    rewrite first_line_of; [apply request_line_parts; assumption|].
    rewrite !not_elem_of_app. split; [exact Hmc|]. split.
    - intros [[=]|[]%elem_of_nil]%elem_of_cons.
    - split; [exact Huc|]. intros H. apply (bool_decide_pack _) in H.
      vm_compute in H. exact H. }
  split; [exact Hline|].
  unfold Offshore.process_request. rewrite Hutf.
  destruct (split CRLF None (Ship.build_request_string it)) as [|l ls];
    [discriminate Hline|].
  cbn [hd] in Hline. rewrite Hline. reflexivity.
Qed.

Lemma ship_request_is_parsed_back_witness :
  let it := Ship.mkRequestItem (b "CONNECT") (b "example.com:443")
              [(b "Host", b "example.com:443")] [] false None None in
  Offshore.process_request urlparse_sample strip_sample (fun _ _ => unreachable)
                           (Ship.build_request_string it)
  = (connection_established, []).
Proof.
  intros it.
  refine (proj2 (ship_request_is_parsed_back urlparse_sample strip_sample
                   (fun _ _ => unreachable) it _ _ _ _ eq_refl));
    intros H; apply (bool_decide_pack _) in H; vm_compute in H; exact H.
Defined.

(** X25.  On a connection whose writes succeed, [send_message] makes exactly
    one [sendall] call, with the five header bytes and the payload together
    ([5 + len(payload)] bytes), and reads nothing: no other writer's bytes
    can come between a header and its payload. *)
Theorem send_message_is_one_write (t : N) (payload : bytes) (s : socket) :
  sends_succeed s = true -> fits32 payload = true -> t < 256 ->
  exists s',
    send_message t payload s = (Ok tt, s')
    /\ calls s' = calls s ++ [CallSend (header_of t payload ++ payload)]
    /\ sent s' = sent s ++ header_of t payload ++ payload
    /\ length (header_of t payload ++ payload) = (5 + length payload)%nat
    /\ inbox s' = inbox s.
Proof.
  intros Hs Hfit Ht.
  destruct (send_message_ok t payload s Hs Hfit Ht) as (s' & E & S & C & I & _).
  exists s'. done.
Qed.

Lemma send_message_is_one_write_witness :
  exists s',
    send_message 1 (b "HTTP/1.1 200 OK") (incoming []) = (Ok tt, s')
    /\ calls s' = [] ++ [CallSend (header_of 1 (b "HTTP/1.1 200 OK")
                                   ++ b "HTTP/1.1 200 OK")]
    /\ sent s' = [] ++ header_of 1 (b "HTTP/1.1 200 OK") ++ b "HTTP/1.1 200 OK"
    /\ length (header_of 1 (b "HTTP/1.1 200 OK") ++ b "HTTP/1.1 200 OK")
       = (5 + length (b "HTTP/1.1 200 OK"))%nat
    /\ inbox s' = [].
Proof.
  apply (send_message_is_one_write 1 (b "HTTP/1.1 200 OK") (incoming []));
    reflexivity.
Defined.

(** X26.  The two programs together: the pump writes the request of the item
    at the head of the queue, the executor's loop reads it off its
    connection and writes its answer, and the pump reads that answer.  The
    item is then signalled, and its response is exactly what
    [process_request] returned for the item's own request text, its error
    untouched; if that answer is empty the item gets the error "Failed to
    read response data" instead and its response is untouched. *)
Theorem exchange_with_the_executor
    (urlparse : str -> result Offshore.parsed_url) (strip : str -> str)
    (net : Offshore.network)
    (s : Ship.ShipProxy) (i : nat) (q : list nat) (it : Ship.RequestItem)
    (st : Offshore.serving) (rest : list recv_event) :
  Ship.connected s = true ->
  Ship.request_queue s = i :: q ->
  Ship.heap s !! i = Some it ->
  sends_succeed (Ship.tcp_sock s) = true ->
  servable urlparse strip net (Ship.build_request_string it) = true ->
  sends_succeed (Offshore.conn st) = true ->
  sent (Offshore.conn st) = [] ->
  carries (sent (Ship.tcp_sock (Ship.process_requests_body s))) []
          (Offshore.conn st) ->
  sent (Ship.tcp_sock s) = [] ->
  carries (sent (Offshore.conn (snd (Offshore.serve_one urlparse strip net st))))
          rest (Ship.tcp_sock s) ->
  let answer := fst (Offshore.process_request urlparse strip net
                       (Ship.build_request_string it)) in
  exists it',
    Ship.heap (Ship.process_requests_body s) !! i = Some it'
    /\ Ship.response_event it' = true
    /\ Ship.response it'
       = (if is_empty answer then Ship.response it else Some answer)
    /\ Ship.error it'
       = (if is_empty answer then Some (b "Failed to read response data")
          else Ship.error it).
Proof.
  intros Hconn Hq Hh Hs Hserv Hso Hsent0 Hwire Hsent1 Hback answer.
  unfold servable in Hserv. apply andb_true_iff in Hserv as [Hserv Hfa].
  apply andb_true_iff in Hserv as [Hne Hfq].
  set (request := Ship.build_request_string it) in *.
  fold answer in Hfa.
  assert (Hwritten : sent (Ship.tcp_sock (Ship.process_requests_body s))
                     = wire 0 request).
  { rewrite (process_requests_body_connected s i q it Hq Hh Hconn).
    pose proof (exchange_sent request _ Hs Hfq) as He. fold request.
    destruct (Ship.exchange request (Ship.tcp_sock s)) as [r sock'].
    cbn in He |- *. rewrite He, Hsent1. reflexivity. }
  rewrite Hwritten in Hwire.
  replace (wire 0 request) with (wire 0 request ++ []) in Hwire
    by apply app_nil_r.
  destruct (serve_one_request urlparse strip net request [] [] st)
    as (c' & E & Hs' & _); try assumption.
  { intros Hr. rewrite Hr in Hne. discriminate Hne. }
  rewrite E in Hback. cbn [snd Offshore.conn] in Hback.
  rewrite Hs', Hsent0 in Hback. cbn [app] in Hback. fold answer in Hback.
  replace (wire 1 answer) with (wire 1 answer ++ []) in Hback by apply app_nil_r.
  destruct (exchange_frame request answer [] rest (Ship.tcp_sock s)
              Hs Hfq Hfa Hback) as (sock' & Ex & _).
  rewrite (process_requests_body_connected s i q it Hq Hh Hconn).
  fold request. rewrite Ex. cbn [Ship.heap].
  eexists. split; [apply list_lookup_insert_eq; eapply lookup_lt_Some, Hh|].
  destruct answer; repeat split; reflexivity.
Qed.

Lemma exchange_with_the_executor_witness :
  let it := Ship.mkRequestItem (b "CONNECT") (b "example.com:443")
              [(b "Host", b "example.com:443")] [] false None None in
  let request := Ship.build_request_string it in
  let s := Ship.mkShipProxy [0%nat] [it]
             (incoming [wire 1 connection_established]) true true in
  exists it',
    Ship.heap (Ship.process_requests_body s) !! 0%nat = Some it'
    /\ Ship.response_event it' = true
    /\ Ship.response it' = Some connection_established
    /\ Ship.error it' = None.
Proof.
  intros it request s.
  refine (exchange_with_the_executor urlparse_sample strip_sample
            (fun _ _ => unreachable) s 0 [] it
            (Offshore.mkServing (incoming [wire 0 request]) []) []
            eq_refl eq_refl eq_refl eq_refl eq_refl eq_refl eq_refl _ eq_refl _).
  - exists [wire 0 request]. repeat split; reflexivity.
  - exists [wire 1 connection_established]. repeat split; reflexivity.
Defined.

(** * The [Host] header as the target *)

Section HostHeader.

Lemma split_go_no_more (sep : str) (s : str) :
  forall cur : str, split_go sep (Some O) O cur s = [cur ++ s].
Proof.
  induction s as [|c s IH]; intros cur; cbn [split_go].
  - rewrite app_nil_r. reflexivity.
  - rewrite IH, <- app_assoc. reflexivity.
Qed.

Lemma startswith_app (p s : str) : startswith p (p ++ s) = true.
Proof.
  induction p as [|c p IH]; cbn [startswith app]; [reflexivity|].
  rewrite bool_decide_eq_true_2 by reflexivity. exact IH.
Qed.

Lemma host_name_has_no_colon (name : str) :
  lower name = b "host" -> x3a ∉ name.
Proof.
  intros Hl Hin.
  assert (H : lower_byte x3a ∈ lower name).
  { unfold lower. apply list_elem_of_fmap. exists x3a. done. }
  rewrite Hl in H. apply (bool_decide_pack _) in H. vm_compute in H. exact H.
Qed.

Lemma host_line_value (name v : str) :
  lower name = b "host" ->
  startswith (b "host:") (lower (name ++ b ":" ++ v)) = true
  /\ split (b ":") (Some 1%nat) (name ++ b ":" ++ v) !! 1%nat = Some v.
Proof.
  intros Hl. split.
  - unfold lower in *. rewrite map_app, Hl.
    change (b "host" ++ map lower_byte (b ":" ++ v))
      with (b "host:" ++ map lower_byte v).
    apply startswith_app.
  - unfold split. change (b ":") with [x3a].
    rewrite (split_go_run x3a [] _ name (host_name_has_no_colon name Hl)).
    cbn [app split_go startswith].
    rewrite bool_decide_eq_true_2 by reflexivity.
    cbn [fmap option_fmap option_map pred length Nat.sub].
    rewrite split_go_no_more. reflexivity.
Qed.

End HostHeader.

(** X15.  When the request target names no host, the host is taken from the
    first line after the request line whose name is [host] in any case: it
    is everything after the first colon of that line, stripped, so a port
    written in the header stays part of the host string; later [Host] lines
    are not looked at. *)
Theorem host_comes_from_first_host_line
    (strip : str -> str) (before : list str) (name v : str) (after : list str) :
  forallb (fun line => negb (startswith (b "host:") (lower line))) before = true ->
  lower name = b "host" ->
  Offshore.find_host strip (before ++ (name ++ b ":" ++ v) :: after)
  = Some (strip v).
Proof.
  intros Hb Hn. induction before as [|line before IH]; cbn [app Offshore.find_host].
  - destruct (host_line_value name v Hn) as [-> ->]. reflexivity.
  - cbn [forallb] in Hb. apply andb_true_iff in Hb as [Hl Hb].
    apply negb_true_iff in Hl. rewrite Hl. apply IH, Hb.
Qed.

Lemma host_comes_from_first_host_line_witness :
  Offshore.find_host strip_sample
    ([b "Accept: */*"] ++ (b "HOST" ++ b ":" ++ b " example.com:8080")
       :: [b "Host: other.example"; []; []])
  = Some (strip_sample (b " example.com:8080"))
  /\ strip_sample (b " example.com:8080") = b "example.com:8080".
Proof.
  split; [|reflexivity].
  apply (host_comes_from_first_host_line strip_sample [b "Accept: */*"]
           (b "HOST") (b " example.com:8080")); reflexivity.
Defined.
